(** * The Flux evaluator ([src/evaluator.py]) as a shallow embedding

    The tree-walking evaluator is embedded as a state-and-exception monad over
    an explicit [Evaluator] record.  Python objects with identity
    (environments, lists, dicts, function objects) live in arenas addressed by
    index, so that sharing and in-place mutation are those of the source.

    Two budgets make the embedding total:
    - [depth] bounds the nesting of [evaluate] / [Function.call] activations,
      the native recursion of the host; running out raises the host's
      [RecursionError], as [sys.setrecursionlimit] makes Python do;
    - [steps] bounds the iterations of each host-level loop ([while] loops of
      [visit_while], [visit_for], [visit_repeat_until] and the trampoline of
      [Function.call]); these loops do not recurse natively, so they do not
      consume [depth]. *)

From Stdlib Require Import ZArith Floats.SpecFloat.
From stdpp Require Import gmap strings list pretty.

Set Default Proof Using "Type".
Set Warnings "-register-all".

(** ** Tokens ([src.lexer], used for dispatch on the operator and for error
    messages) *)

(** Modelled from the spec: [src/lexer.py] is not part of the sources.  The
    evaluator imports these operator-kind constants and only compares them
    with [==]; they are taken to be pairwise distinct.  [OTHER] stands for
    every other kind tag, such as the ["IDENTIFIER"] and ["MATCH"] tags the
    evaluator builds itself. *)
Inductive TokenType : Set :=
  | PLUS | MINUS | MULTIPLY | DIVIDE | EXPONENT | REM
  | LT | GT | LTE | GTE | EQEQ | NOTEQ
  | AND | OR | NOT
  | OTHER (tag : string).

#[global] Instance TokenType_eq_dec : EqDecision TokenType.
Proof. solve_decision. Defined.

Record Token : Set := mkToken {
  tok_type : TokenType;
  tok_value : string;
  tok_line : Z
}.

Definition TokenType_str (t : TokenType) : string :=
  match t with
  | PLUS => "PLUS" | MINUS => "MINUS" | MULTIPLY => "MULTIPLY"
  | DIVIDE => "DIVIDE" | EXPONENT => "EXPONENT" | REM => "REM"
  | LT => "LT" | GT => "GT" | LTE => "LTE" | GTE => "GTE"
  | EQEQ => "EQEQ" | NOTEQ => "NOTEQ"
  | AND => "AND" | OR => "OR" | NOT => "NOT"
  | OTHER tag => tag
  end.

(** ** Floats: IEEE-754 binary64, as Python's [float] *)

Module Float64.
Definition prec : Z := 53.
Definition emax : Z := 1024.

Definition add := SFadd prec emax.
Definition sub := SFsub prec emax.
Definition mul := SFmul prec emax.
Definition div := SFdiv prec emax.
Definition opp := SFopp.
Definition eqb := SFeqb.
Definition ltb := SFltb.
Definition leb := SFleb.

Definition is_nan (f : spec_float) : bool :=
  match f with S754_nan => true | _ => false end.

Definition is_zero (f : spec_float) : bool :=
  match f with S754_zero _ => true | _ => false end.

Definition is_finite (f : spec_float) : bool :=
  match f with S754_zero _ | S754_finite _ _ _ => true | _ => false end.

Definition sign_bit (f : spec_float) : bool :=
  match f with
  | S754_zero s | S754_infinity s | S754_finite s _ _ => s
  | S754_nan => false
  end.

(** The integer as an (unrounded) float datum: mantissa [z], exponent 0. *)
Definition exact_of_Z (z : Z) : spec_float :=
  match z with
  | Z0 => S754_zero false
  | Zpos p => S754_finite false p 0
  | Zneg p => S754_finite true p 0
  end.

(** [float(z)]: rounding to nearest, ties to even; an infinite result
    stands for Python's [OverflowError]. *)
Definition of_Z (z : Z) : spec_float := binary_normalize prec emax z 0 false.

(** The value of a finite float is [m * 2^e]; [scaled f k] is that value
    times [2^k], for a [k] that makes it an integer. *)
Definition scaled (f : spec_float) (k : Z) : Z :=
  match f with
  | S754_finite s m e => (if s then -1 else 1) * Z.shiftl (Zpos m) (e + k)
  | _ => 0
  end.

Definition exponent (f : spec_float) : Z :=
  match f with S754_finite _ _ e => e | _ => 0 end.

(** Exact comparison of an integer with a float, as CPython's
    [float_richcompare] does (no conversion of the integer, hence no
    overflow).  [None] when the float is a NaN. *)
Definition compare_Z (z : Z) (f : spec_float) : option comparison :=
  match f with
  | S754_nan => None
  | S754_infinity s => Some (if s then Gt else Lt)
  | S754_zero _ => Some (z ?= 0)%Z
  | S754_finite _ _ e =>
      let k := Z.max 0 (- e) in
      Some (Z.shiftl z k ?= scaled f k)%Z
  end.

(** [value.is_integer()] *)
Definition is_integer (f : spec_float) : bool :=
  match f with
  | S754_zero _ => true
  | S754_finite _ m e =>
      if (0 <=? e)%Z then true
      else (Z.land (Zpos m) (Z.ones (- e)) =? 0)%Z
  | _ => false
  end.

(** [int(value)] for a finite float (truncation towards zero). *)
Definition to_Z (f : spec_float) : Z :=
  match f with
  | S754_finite s m e =>
      (if s then -1 else 1) * Z.shiftl (Zpos m) e
  | _ => 0
  end.

(** C's [fmod]: the exact remainder of the truncated division, with the
    sign of the dividend. *)
Definition fmod (x y : spec_float) : spec_float :=
  match x, y with
  | S754_nan, _ | _, S754_nan => S754_nan
  | S754_infinity _, _ => S754_nan
  | _, S754_zero _ => S754_nan
  | S754_zero _, _ => x
  | S754_finite _ _ _, S754_infinity _ => x
  | S754_finite sx mx ex, S754_finite _ my ey =>
      let e := Z.min ex ey in
      let r := Z.rem (Z.shiftl (Zpos mx) (ex - e)) (Z.shiftl (Zpos my) (ey - e)) in
      match r with
      | Z0 => S754_zero sx
      | _ => binary_normalize prec emax (if sx then - r else r) e false
      end
  end.

(** CPython's [float_rem] ([%] on floats), for a non-zero divisor: the
    result takes the sign of the divisor. *)
Definition rem (x y : spec_float) : spec_float :=
  let m := fmod x y in
  if is_zero m then S754_zero (sign_bit y)
  else if negb (Bool.eqb (ltb y (S754_zero false)) (ltb m (S754_zero false)))
       then add m y
       else m.

Definition one : spec_float := of_Z 1.
End Float64.

(** ** Syntax trees ([src.ast_1], consumed only) *)

(** Modelled from the spec: [src/ast_1.py] is not part of the sources.  Each
    node class carries the attributes the evaluator reads from it
    ([node.left], [node.operator], [block.statements], [case.pattern], ...);
    an attribute the evaluator tests for absence ([node.else_branch],
    [node.step], [node.token] of a call, the value of a [return]) is an
    [option]. *)
Module ast_1.
Inductive AST : Type :=
  | Integer (value : Z)
  | Float (value : spec_float)
  | String (value : string)
  | Boolean (value : bool)
  | Var (name : string) (token : Token)
  | VarAssign (name : string) (value : AST)
  | VarReassign (name : string) (value : AST) (token : Token)
  | BinOp (left : AST) (operator : Token) (right : AST)
  | UnaryOp (operator : Token) (right : AST)
  | Block (statements : list AST)
  | If (condition then_branch : AST) (else_branch : option AST)
  | While (condition body : AST)
  | For (var_name : string) (start end_ : AST) (step : option AST) (body : AST)
  | RepeatUntil (body condition : AST)
  | Match (expression : AST) (cases : list AST)
  | MatchCase (pattern body : AST)
  | FuncDef (name : string) (params : list string) (body : AST)
  | FuncCall (callee : AST) (args : list AST) (token : option Token)
  | Return (value : option AST)
  | Lambda (params : list string) (body : AST)
  | Array (elements : list AST)
  | Dict (pairs : list (AST * AST))
  | ConditionalExpr (condition then_expr else_expr : AST)
  | Print (expression : AST)
  | ArrayAssign (array : string + AST) (index value : AST) (token : Token)
  | ArrayAccess (array : string + AST) (index : AST) (token : Token).
End ast_1.
Abbreviation AST := ast_1.AST.

(** ** Runtime values *)

(** A [Function] object.  [fn_id] is the identity of the Python object:
    [Function] defines no [__eq__], so [callee == self.current_function]
    compares identities. *)
Record Function : Type := mkFunction {
  fn_id : nat;
  fn_name : string;
  fn_params : list string;
  fn_body : AST;
  fn_closure : nat;
  fn_is_anonymous : bool
}.

(** Python values the evaluator computes with.  Lists and dicts are
    references into the object heap. *)
Inductive Value : Type :=
  | VNone
  | VBool (b : bool)
  | VInt (z : Z)
  | VFloat (f : spec_float)
  | VStr (s : string)
  | VList (ref : nat)
  | VDict (ref : nat)
  | VFunction (f : Function)
  | VBuiltin (name : string).

Inductive Object : Type :=
  | OList (items : list Value)
  | ODict (items : list (Value * Value)).

Record Environment : Type := mkEnvironment {
  parent : option nat;
  variables : gmap string Value
}.

(** ** Exceptions and outcomes *)

Inductive HostException : Set :=
  | RecursionError | OverflowError | ZeroDivisionError | TypeError | AttributeError.

Inductive Exception : Type :=
  | FluxRuntimeError (token : Token) (message : string)
  | TailCall (function : Function) (arguments : list Value)
  | Return (value : Value)
  | HostError (e : HostException).

(** Where the embedding stops: a loop that used up its [steps], or a host
    routine whose result the embedding does not define (the C library's
    [pow], the shortest-digits [repr] of a float, the [repr] of a string or
    of an object that prints its address). *)
Inductive Stop : Set :=
  | OutOfSteps
  | Unmodelled (what : string).

Inductive Outcome (A : Type) : Type :=
  | Ok (a : A)
  | Raise (e : Exception)
  | Abort (why : Stop).
Arguments Ok {A} a.
Arguments Raise {A} e.
Arguments Abort {A} why.

(** [FluxRuntimeError.__init__] builds the user-visible text. *)
Definition error_message (token : Token) (message : string) : string :=
  "[line " +:+ pretty (tok_line token) +:+ "] Error at '" +:+ tok_value token
  +:+ "': " +:+ message.

(** ** The evaluator's state *)

Record Evaluator : Type := mkEvaluator {
  envs : list Environment;
  objects : list Object;
  next_function : nat;
  global_env : nat;
  env : nat;
  current_function : option Function;
  in_tail_position : bool;
  stdout : list string
}.

Definition with_envs (f : list Environment → list Environment) (s : Evaluator) :=
  mkEvaluator (f (envs s)) (objects s) (next_function s) (global_env s) (env s)
    (current_function s) (in_tail_position s) (stdout s).
Definition with_objects (f : list Object → list Object) (s : Evaluator) :=
  mkEvaluator (envs s) (f (objects s)) (next_function s) (global_env s) (env s)
    (current_function s) (in_tail_position s) (stdout s).
Definition with_next_function (n : nat) (s : Evaluator) :=
  mkEvaluator (envs s) (objects s) n (global_env s) (env s)
    (current_function s) (in_tail_position s) (stdout s).
Definition with_env (e : nat) (s : Evaluator) :=
  mkEvaluator (envs s) (objects s) (next_function s) (global_env s) e
    (current_function s) (in_tail_position s) (stdout s).
Definition with_current_function (f : option Function) (s : Evaluator) :=
  mkEvaluator (envs s) (objects s) (next_function s) (global_env s) (env s)
    f (in_tail_position s) (stdout s).
Definition with_in_tail_position (b : bool) (s : Evaluator) :=
  mkEvaluator (envs s) (objects s) (next_function s) (global_env s) (env s)
    (current_function s) b (stdout s).
Definition with_stdout (f : list string → list string) (s : Evaluator) :=
  mkEvaluator (envs s) (objects s) (next_function s) (global_env s) (env s)
    (current_function s) (in_tail_position s) (f (stdout s)).

(** ** The monad: state that survives exceptions *)

Definition M (A : Type) : Type := Evaluator → Outcome A * Evaluator.

Definition ret {A} (a : A) : M A := λ s, (Ok a, s).
Definition raise {A} (e : Exception) : M A := λ s, (Raise e, s).
Definition abort {A} (why : Stop) : M A := λ s, (Abort why, s).

Definition bind {A B} (m : M A) (k : A → M B) : M B :=
  λ s, match m s with
       | (Ok a, s') => k a s'
       | (Raise e, s') => (Raise e, s')
       | (Abort why, s') => (Abort why, s')
       end.

Notation "'let*' x ':=' m 'in' k" := (bind m (λ x, k))
  (at level 10, x pattern, m at level 100, k at level 200).
Notation "m ';;' k" := (bind m (λ _, k))
  (at level 100, k at level 200, right associativity).

Definition gets {A} (f : Evaluator → A) : M A := λ s, (Ok (f s), s).
Definition modify (f : Evaluator → Evaluator) : M unit := λ s, (Ok tt, f s).

(** [try: m finally: fin] *)
Definition try_finally {A} (m : M A) (fin : M unit) : M A :=
  λ s, match m s with
       | (Abort why, s') => (Abort why, s')
       | (r, s') =>
           match fin s' with
           | (Ok _, s'') => (r, s'')
           | (Raise e, s'') => (Raise e, s'')
           | (Abort why, s'') => (Abort why, s'')
           end
       end.

(** [try: m except ...: handler], for the exceptions [handler] accepts. *)
Definition try_except {A} (m : M A) (handler : Exception → option (M A)) : M A :=
  λ s, match m s with
       | (Raise e, s') =>
           match handler e with
           | Some h => h s'
           | None => (Raise e, s')
           end
       | r => r
       end.

Fixpoint mapM {A B} (f : A → M B) (l : list A) : M (list B) :=
  match l with
  | [] => ret []
  | a :: l' => let* b := f a in let* bs := mapM f l' in ret (b :: bs)
  end.

(** [for x, y in zip(xs, ys): f(x, y)] *)
Fixpoint for_zip {A B} (f : A → B → M unit) (xs : list A) (ys : list B) : M unit :=
  match xs, ys with
  | x :: xs', y :: ys' => f x y ;; for_zip f xs' ys'
  | _, _ => ret tt
  end.

(** ** class Environment *)

(** [Environment(parent)]: a fresh object at the end of the arena. *)
Definition new_Environment (parent : option nat) : M nat :=
  λ s, (Ok (length (envs s)), with_envs (λ es, es ++ [mkEnvironment parent ∅]) s).

Definition set_variable (name : string) (value : Value) (r : Environment) : Environment :=
  mkEnvironment (parent r) (<[name := value]> (variables r)).

Definition Environment_define (self : nat) (name : string) (value : Value) : M unit :=
  modify (with_envs (alter (set_variable name value) self)).

(** The environment of the chain starting at [self] whose own mapping has
    [name], with the value bound there.  [get] and [assign] recurse along
    [parent]; [fuel] bounds that walk, and [length es] is enough since a
    parent is always created before its children. *)
Fixpoint find_binding (es : list Environment) (fuel : nat) (self : nat) (name : string)
  : option (nat * Value) :=
  match fuel with
  | O => None
  | S fuel' =>
      match es !! self with
      | None => None
      | Some r =>
          match variables r !! name with
          | Some v => Some (self, v)
          | None =>
              match parent r with
              | Some p => find_binding es fuel' p name
              | None => None
              end
          end
      end
  end.

Definition Environment_get (self : nat) (name : string) (token : Token) : M Value :=
  let* es := gets envs in
  match find_binding es (length es) self name with
  | Some (_, v) => ret v
  | None => raise (FluxRuntimeError token ("Undefined variable '" +:+ name +:+ "'"))
  end.

Definition Environment_assign (self : nat) (name : string) (value : Value) (token : Token)
  : M Value :=
  let* es := gets envs in
  match find_binding es (length es) self name with
  | Some (owner, _) => Environment_define owner name value ;; ret value
  | None =>
      raise (FluxRuntimeError token ("Cannot reassign undefined variable '" +:+ name +:+ "'"))
  end.

(** ** Python's view of the values *)

Definition lift {A} (o : Outcome A) : M A := λ s, (o, s).

(** [type(value).__name__] *)
Definition type_name (value : Value) : string :=
  match value with
  | VNone => "NoneType"
  | VBool _ => "bool"
  | VInt _ => "int"
  | VFloat _ => "float"
  | VStr _ => "str"
  | VList _ => "list"
  | VDict _ => "dict"
  | VFunction _ => "Function"
  | VBuiltin _ => "BuiltinFunction"
  end.

Inductive Number : Type :=
  | NInt (z : Z)
  | NFloat (f : spec_float).

(** The number a value is when [isinstance(value, (int, float))] holds.
    Python's [bool] is a subclass of [int]: [True] and [False] pass that test
    and compute as 1 and 0. *)
Definition as_number (value : Value) : option Number :=
  match value with
  | VBool b => Some (NInt (Z.b2z b))
  | VInt z => Some (NInt z)
  | VFloat f => Some (NFloat f)
  | _ => None
  end.

Definition isinstance_int_float (value : Value) : bool :=
  match as_number value with Some _ => true | None => false end.


Definition isinstance_str (value : Value) : bool :=
  match value with VStr _ => true | _ => false end.

(** [float(n)] for the mixed operations; a too large integer is an
    [OverflowError]. *)
Definition to_float (n : Number) : Outcome spec_float :=
  match n with
  | NFloat f => Ok f
  | NInt z =>
      let f := Float64.of_Z z in
      if Float64.is_finite f then Ok f else Raise (HostError OverflowError)
  end.

Definition float_op (op : spec_float → spec_float → Outcome Value) (a b : Number)
  : Outcome Value :=
  match to_float a with
  | Ok fa =>
      match to_float b with
      | Ok fb => op fa fb
      | Raise e => Raise e
      | Abort why => Abort why
      end
  | Raise e => Raise e
  | Abort why => Abort why
  end.

Definition py_add (a b : Number) : Outcome Value :=
  match a, b with
  | NInt x, NInt y => Ok (VInt (x + y))
  | _, _ => float_op (λ fa fb, Ok (VFloat (Float64.add fa fb))) a b
  end.

Definition py_sub (a b : Number) : Outcome Value :=
  match a, b with
  | NInt x, NInt y => Ok (VInt (x - y))
  | _, _ => float_op (λ fa fb, Ok (VFloat (Float64.sub fa fb))) a b
  end.

Definition py_mul (a b : Number) : Outcome Value :=
  match a, b with
  | NInt x, NInt y => Ok (VInt (x * y))
  | _, _ => float_op (λ fa fb, Ok (VFloat (Float64.mul fa fb))) a b
  end.

(** [a / b].  On two integers CPython divides exactly and rounds once
    ([long_true_divide]); a quotient beyond the floats is an
    [OverflowError]. *)
Definition py_truediv (a b : Number) : Outcome Value :=
  match a, b with
  | NInt x, NInt y =>
      if (y =? 0)%Z then Raise (HostError ZeroDivisionError)
      else
        let q := Float64.div (Float64.exact_of_Z x) (Float64.exact_of_Z y) in
        if Float64.is_finite q then Ok (VFloat q) else Raise (HostError OverflowError)
  | _, _ =>
      float_op (λ fa fb, if Float64.is_zero fb then Raise (HostError ZeroDivisionError)
                         else Ok (VFloat (Float64.div fa fb))) a b
  end.

(** [a % b]: the remainder has the sign of the divisor. *)
Definition py_mod (a b : Number) : Outcome Value :=
  match a, b with
  | NInt x, NInt y =>
      if (y =? 0)%Z then Raise (HostError ZeroDivisionError)
      else Ok (VInt (x `mod` y))
  | _, _ =>
      float_op (λ fa fb, if Float64.is_zero fb then Raise (HostError ZeroDivisionError)
                         else Ok (VFloat (Float64.rem fa fb))) a b
  end.

(** CPython's [float_pow].  Its special cases are decided before the C
    library is asked; what [pow] itself returns is outside the embedding. *)
Definition float_pow (v w : spec_float) : Outcome Value :=
  if Float64.is_zero w then Ok (VFloat Float64.one)
  else if Float64.is_nan v then Ok (VFloat v)
  else if Float64.is_nan w then
    Ok (VFloat (if Float64.eqb v Float64.one then Float64.one else w))
  else if negb (Float64.is_finite w) || negb (Float64.is_finite v) then
    Abort (Unmodelled "pow")
  else if Float64.is_zero v then
    if Float64.ltb w (S754_zero false) then Raise (HostError ZeroDivisionError)
    else Ok (VFloat (if Float64.is_integer w && Z.odd (Float64.to_Z w)
                     then v else S754_zero false))
  else Abort (Unmodelled "pow").

(** [a ** b]: exact on integers with a non-negative exponent, [float_pow]
    otherwise. *)
Definition py_pow (a b : Number) : Outcome Value :=
  match a, b with
  | NInt x, NInt y =>
      if (0 <=? y)%Z then Ok (VInt (x ^ y)) else float_op float_pow a b
  | _, _ => float_op float_pow a b
  end.

(** Exact three-way comparison of two numbers; [None] when a NaN makes
    them unordered. *)
Definition num_compare (a b : Number) : option comparison :=
  match a, b with
  | NInt x, NInt y => Some (x ?= y)%Z
  | NFloat f, NFloat g => SFcompare f g
  | NInt x, NFloat g => Float64.compare_Z x g
  | NFloat f, NInt y => CompOpp <$> Float64.compare_Z y f
  end.

Definition py_lt (a b : Number) : bool :=
  match num_compare a b with Some Lt => true | _ => false end.
Definition py_gt (a b : Number) : bool :=
  match num_compare a b with Some Gt => true | _ => false end.
Definition py_le (a b : Number) : bool :=
  match num_compare a b with Some Lt | Some Eq => true | _ => false end.
Definition py_ge (a b : Number) : bool :=
  match num_compare a b with Some Gt | Some Eq => true | _ => false end.
Definition num_eq (a b : Number) : bool :=
  match num_compare a b with Some Eq => true | _ => false end.

(** [value == 0] *)
Definition equals_zero (value : Value) : bool :=
  match as_number value with
  | Some n => num_eq n (NInt 0)
  | None => false
  end.

(** [a == b] on values that are not both lists or both dicts: numbers
    (booleans among them) compare by value, strings by content, [None] with
    itself, function objects by identity; anything else differs. *)
Definition scalar_eq (a b : Value) : bool :=
  match a, b with
  | VNone, VNone => true
  | VStr s, VStr t => bool_decide (s = t)
  | VFunction f, VFunction g => bool_decide (fn_id f = fn_id g)
  | VBuiltin n, VBuiltin m => bool_decide (n = m)
  | _, _ =>
      match as_number a, as_number b with
      | Some x, Some y => num_eq x y
      | _, _ => false
      end
  end.

Definition is_nan_value (v : Value) : bool :=
  match v with VFloat f => Float64.is_nan f | _ => false end.

(** First differing pair decides, as [list_richcompare] does. *)
Fixpoint all_eq (eq : Value → Value → Outcome bool) (xs ys : list Value) : Outcome bool :=
  match xs, ys with
  | x :: xs', y :: ys' =>
      match eq x y with
      | Ok true => all_eq eq xs' ys'
      | r => r
      end
  | _, _ => Ok true
  end.

(** [d.get(key)] for a hashable scalar key. *)
Fixpoint dict_lookup (items : list (Value * Value)) (key : Value) : option Value :=
  match items with
  | [] => None
  | (k, v) :: items' => if scalar_eq k key then Some v else dict_lookup items' key
  end.

Fixpoint dict_eq (eq : Value → Value → Outcome bool) (xs ys : list (Value * Value))
  : Outcome bool :=
  match xs with
  | [] => Ok true
  | (k, v) :: xs' =>
      match dict_lookup ys k with
      | None => Ok false
      | Some w =>
          match eq w v with
          | Ok true => dict_eq eq xs' ys
          | r => r
          end
      end
  end.

(** [a == b].  Containers compare element-wise; each level of nesting is a
    native recursion.  Items are first compared by identity
    ([PyObject_RichCompareBool]); a float's identity is not fixed by the
    program, and it only matters between two NaNs. *)
Fixpoint py_eq (depth : nat) (objs : list Object) (a b : Value) {struct depth}
  : Outcome bool :=
  let item_eq d x y :=
    if is_nan_value x && is_nan_value y then Abort (Unmodelled "identity of a float")
    else py_eq d objs x y in
  match a, b with
  | VList r1, VList r2 =>
      if bool_decide (r1 = r2) then Ok true
      else match depth with
           | O => Raise (HostError RecursionError)
           | S d =>
               match objs !! r1, objs !! r2 with
               | Some (OList xs), Some (OList ys) =>
                   if bool_decide (length xs = length ys)
                   then all_eq (item_eq d) xs ys else Ok false
               | _, _ => Abort (Unmodelled "dangling reference")
               end
           end
  | VDict r1, VDict r2 =>
      if bool_decide (r1 = r2) then Ok true
      else match depth with
           | O => Raise (HostError RecursionError)
           | S d =>
               match objs !! r1, objs !! r2 with
               | Some (ODict xs), Some (ODict ys) =>
                   if bool_decide (length xs = length ys)
                   then dict_eq (item_eq d) xs ys else Ok false
               | _, _ => Abort (Unmodelled "dangling reference")
               end
           end
  | _, _ => Ok (scalar_eq a b)
  end.

(** ** Evaluator.is_truthy, Evaluator.stringify *)

Definition is_truthy (value : Value) : bool :=
  match value with
  | VNone | VBool false => false
  | _ =>
      if isinstance_int_float value && equals_zero value then false
      else if isinstance_str value && scalar_eq value (VStr "") then false
      else true
  end.

Fixpoint join (sep : string) (l : list string) : string :=
  match l with
  | [] => ""
  | [x] => x
  | x :: l' => x +:+ sep +:+ join sep l'
  end.

(** [len(text)] on a [str].  A String value holds the UTF-8 encoding of its
    text, and Python counts the code points of the text: the bytes that do
    not continue a character (those not of the form [10xxxxxx]). *)
Definition continues_character (a : Ascii.ascii) : bool :=
  let n := Ascii.N_of_ascii a in (128 <=? n)%N && (n <? 192)%N.

Fixpoint code_points (text : string) : nat :=
  match text with
  | EmptyString => 0
  | String a rest => (if continues_character a then 0 else 1) + code_points rest
  end.

(** [Function.__str__] *)
Definition Function_str (f : Function) : string :=
  let params_str := join ", " (fn_params f) in
  if fn_is_anonymous f then "<anonymous function(" +:+ params_str +:+ ")>"
  else "<function " +:+ fn_name f +:+ "(" +:+ params_str +:+ ")>".

(** [BuiltinFunction.__str__] *)
Definition BuiltinFunction_str (name : string) : string :=
  "<built-in function " +:+ name +:+ ">".

Definition str_bool (b : bool) : string := if b then "True" else "False".

(** [repr(item)] of an item of a container, where the embedding defines it. *)
Definition repr_item (v : Value) : Outcome string :=
  match v with
  | VNone => Ok "None"
  | VBool b => Ok (str_bool b)
  | VInt z => Ok (pretty z)
  | _ => Abort (Unmodelled "repr")
  end.

Fixpoint repr_items (l : list Value) : Outcome (list string) :=
  match l with
  | [] => Ok []
  | v :: l' =>
      match repr_item v, repr_items l' with
      | Ok s, Ok ss => Ok (s :: ss)
      | Ok _, r => r
      | Raise e, _ => Raise e
      | Abort why, _ => Abort why
      end
  end.

Fixpoint repr_pairs (l : list (Value * Value)) : Outcome (list string) :=
  match l with
  | [] => Ok []
  | (k, v) :: l' =>
      match repr_item k, repr_item v, repr_pairs l' with
      | Ok s, Ok t, Ok ss => Ok ((s +:+ ": " +:+ t) :: ss)
      | Raise e, _, _ | Ok _, Raise e, _ | Ok _, Ok _, Raise e => Raise e
      | Abort why, _, _ | Ok _, Abort why, _ | Ok _, Ok _, Abort why => Abort why
      end
  end.

(** [str(value)] *)
Definition py_str (objs : list Object) (value : Value) : Outcome string :=
  match value with
  | VNone => Ok "None"
  | VBool b => Ok (str_bool b)
  | VInt z => Ok (pretty z)
  | VFloat S754_nan => Ok "nan"
  | VFloat (S754_infinity s) => Ok (if s then "-inf" else "inf")
  | VFloat _ => Abort (Unmodelled "repr of a float")
  | VStr s => Ok s
  | VList r =>
      match objs !! r with
      | Some (OList xs) =>
          match repr_items xs with
          | Ok ss => Ok ("[" +:+ join ", " ss +:+ "]")
          | Raise e => Raise e
          | Abort why => Abort why
          end
      | _ => Abort (Unmodelled "dangling reference")
      end
  | VDict r =>
      match objs !! r with
      | Some (ODict xs) =>
          match repr_pairs xs with
          | Ok ss => Ok ("{" +:+ join ", " ss +:+ "}")
          | Raise e => Raise e
          | Abort why => Abort why
          end
      | _ => Abort (Unmodelled "dangling reference")
      end
  | VFunction f => Ok (Function_str f)
  | VBuiltin name => Ok (BuiltinFunction_str name)
  end.

Definition stringify (value : Value) : M string :=
  match value with
  | VNone => ret "nil"
  | VFloat f =>
      if Float64.is_integer f then ret (pretty (Float64.to_Z f))
      else let* objs := gets objects in lift (py_str objs value)
  | _ => let* objs := gets objects in lift (py_str objs value)
  end.

(** ** class Evaluator: the visitor methods

    The methods call each other through [self.evaluate] and
    [callee.call]; inside this section these two are the variables
    [evaluate] and [call], tied into a recursion on [depth] afterwards. *)

Section Visitor.

Variable steps : nat.
Variable depth : nat.
Variable evaluate : option AST → M Value.
Variable call : Value → list Value → Token → M Value.

Definition same_function (callee : Value) (current : option Function) : bool :=
  match callee, current with
  | VFunction f, Some g => bool_decide (fn_id f = fn_id g)
  | _, _ => false
  end.

(** [block.statements] *)
Definition statements_of (block : AST) : M (list AST) :=
  match block with
  | ast_1.Block statements => ret statements
  | _ => raise (HostError AttributeError)
  end.

(** The [for i, stmt in enumerate(block.statements)] loop of
    [execute_block]; [i == last_idx] holds on the last statement.

    The test [isinstance(stmt, Return)] of that loop never holds: when the
    method runs, the name [Return] is the exception class defined further up
    in the module ([class Return(Exception)]), which has replaced the syntax
    class of that name imported from [ast_1], and no statement is an
    instance of an exception class.  The statements under that test thus
    never run, and a [return] statement is evaluated like every other
    statement, through [visit_return]. *)
Fixpoint block_loop (statements : list AST) (result : Value) : M Value :=
  match statements with
  | [] => ret result
  | stmt :: rest =>
      let is_last := match rest with [] => true | _ => false end in
      let* old_tail_pos := gets in_tail_position in
      (if is_last then
         let* current := gets current_function in
         modify (with_in_tail_position (old_tail_pos || bool_decide (current ≠ None)))
       else ret tt) ;;
      let* r := evaluate (Some stmt) in
      modify (with_in_tail_position old_tail_pos) ;;
      block_loop rest r
  end.

Definition execute_block (block : AST) (env_ : nat) : M Value :=
  let* previous_env := gets env in
  modify (with_env env_) ;;
  try_finally
    (let* statements := statements_of block in block_loop statements VNone)
    (modify (with_env previous_env)).

Definition visit_integer (value : Z) : M Value := ret (VInt value).
Definition visit_float (value : spec_float) : M Value := ret (VFloat value).
Definition visit_string (value : string) : M Value := ret (VStr value).
Definition visit_boolean (value : bool) : M Value := ret (VBool value).

Definition visit_var (name : string) (token : Token) : M Value :=
  let* e := gets env in Environment_get e name token.

Definition visit_var_assign (name : string) (value : AST) : M Value :=
  let* v := evaluate (Some value) in
  let* e := gets env in
  Environment_define e name v ;;
  ret v.

Definition visit_var_reassign (name : string) (value : AST) (token : Token) : M Value :=
  let* v := evaluate (Some value) in
  let* e := gets env in
  Environment_assign e name v token.

Definition check_number_operand (operator : Token) (operand : Value) : M Number :=
  match as_number operand with
  | Some n => ret n
  | None => raise (FluxRuntimeError operator "Operand must be a number")
  end.

Definition check_number_operands (operator : Token) (left right : Value)
  : M (Number * Number) :=
  match as_number left, as_number right with
  | Some a, Some b => ret (a, b)
  | _, _ => raise (FluxRuntimeError operator "Operands must be numbers")
  end.

(** [isinstance(value, (int, float, bool, Function))] *)
Definition isinstance_stringifiable (value : Value) : bool :=
  match value with
  | VFunction _ => true
  | _ => isinstance_int_float value
  end.

(** The dispatch of [visit_bin_op] on [node.operator.type], once both
    operands have been evaluated. *)
Definition binary_operation (operator : Token) (left right : Value) : M Value :=
  match tok_type operator with
  | PLUS =>
      match as_number left, as_number right with
      | Some a, Some b => lift (py_add a b)
      | _, _ =>
          match left, right with
          | VStr l, VStr r => ret (VStr (l +:+ r))
          | VStr l, _ =>
              if isinstance_stringifiable right
              then let* s := stringify right in ret (VStr (l +:+ s))
              else raise (FluxRuntimeError operator
                "Operands must be two numbers, two strings, or a string and another type for '+'")
          | _, VStr r =>
              if isinstance_stringifiable left
              then let* s := stringify left in ret (VStr (s +:+ r))
              else raise (FluxRuntimeError operator
                "Operands must be two numbers, two strings, or a string and another type for '+'")
          | _, _ =>
              raise (FluxRuntimeError operator
                "Operands must be two numbers, two strings, or a string and another type for '+'")
          end
      end
  | MINUS =>
      let* (a, b) := check_number_operands operator left right in lift (py_sub a b)
  | MULTIPLY =>
      let* (a, b) := check_number_operands operator left right in lift (py_mul a b)
  | DIVIDE =>
      let* (a, b) := check_number_operands operator left right in
      if equals_zero right then raise (FluxRuntimeError operator "Division by zero")
      else lift (py_truediv a b)
  | EXPONENT =>
      let* (a, b) := check_number_operands operator left right in lift (py_pow a b)
  | REM =>
      let* (a, b) := check_number_operands operator left right in
      if equals_zero right then raise (FluxRuntimeError operator "Remainder by zero")
      else lift (py_mod a b)
  | LT =>
      let* (a, b) := check_number_operands operator left right in ret (VBool (py_lt a b))
  | GT =>
      let* (a, b) := check_number_operands operator left right in ret (VBool (py_gt a b))
  | LTE =>
      let* (a, b) := check_number_operands operator left right in ret (VBool (py_le a b))
  | GTE =>
      let* (a, b) := check_number_operands operator left right in ret (VBool (py_ge a b))
  | EQEQ =>
      let* objs := gets objects in
      let* b := lift (py_eq depth objs left right) in ret (VBool b)
  | NOTEQ =>
      let* objs := gets objects in
      let* b := lift (py_eq depth objs left right) in ret (VBool (negb b))
  | AND => ret (VBool (is_truthy left && is_truthy right))
  | OR => ret (VBool (is_truthy left || is_truthy right))
  | _ =>
      raise (FluxRuntimeError operator
               ("Unknown binary operator '" +:+ tok_value operator +:+ "'"))
  end.

Definition visit_bin_op (left : AST) (operator : Token) (right : AST) : M Value :=
  let* l := evaluate (Some left) in
  let* r := evaluate (Some right) in
  binary_operation operator l r.

Definition py_neg (n : Number) : Value :=
  match n with
  | NInt z => VInt (- z)
  | NFloat f => VFloat (Float64.opp f)
  end.

Definition visit_unary_op (operator : Token) (right : AST) : M Value :=
  let* value := evaluate (Some right) in
  match tok_type operator with
  | MINUS => let* n := check_number_operand operator value in ret (py_neg n)
  | NOT => ret (VBool (negb (is_truthy value)))
  | t =>
      raise (FluxRuntimeError operator
               ("Unknown unary operator '" +:+ TokenType_str t +:+ "'"))
  end.

Definition visit_block (node : AST) : M Value :=
  let* e := gets env in
  let* child := new_Environment (Some e) in
  execute_block node child.

Definition visit_if (condition then_branch : AST) (else_branch : option AST) : M Value :=
  let* c := evaluate (Some condition) in
  if is_truthy c then evaluate (Some then_branch)
  else match else_branch with
       | Some e => evaluate (Some e)
       | None => ret VNone
       end.

Fixpoint while_loop (condition body : AST) (fuel : nat) (result : Value) : M Value :=
  match fuel with
  | O => abort OutOfSteps
  | S fuel' =>
      let* c := evaluate (Some condition) in
      if is_truthy c then
        let* r := evaluate (Some body) in while_loop condition body fuel' r
      else ret result
  end.

Definition visit_while (condition body : AST) : M Value :=
  while_loop condition body steps VNone.

Definition number_value (n : Number) : Value :=
  match n with NInt z => VInt z | NFloat f => VFloat f end.

Fixpoint for_loop (var_name : string) (body : AST) (loop_env : nat)
    (end_ step : Number) (fuel : nat) (current : Number) (result : Value) : M Value :=
  match fuel with
  | O => abort OutOfSteps
  | S fuel' =>
      if (py_gt step (NInt 0) && py_le current end_)
         || (py_lt step (NInt 0) && py_ge current end_)
      then
        let* body_env := new_Environment (Some loop_env) in
        let* r := execute_block body body_env in
        let* next := lift (py_add current step) in
        Environment_assign loop_env var_name next (mkToken (OTHER "IDENTIFIER") var_name 0) ;;
        match as_number next with
        | Some n => for_loop var_name body loop_env end_ step fuel' n r
        | None => raise (HostError TypeError)
        end
      else ret result
  end.

Definition visit_for (var_name : string) (start end_ : AST) (step : option AST)
    (body : AST) : M Value :=
  let* start_v := evaluate (Some start) in
  let* end_v := evaluate (Some end_) in
  let* step_v := match step with
                 | Some s => evaluate (Some s)
                 | None => ret (VInt 1)
                 end in
  let token := mkToken (OTHER "IDENTIFIER") var_name 0 in
  match as_number start_v with
  | None => raise (FluxRuntimeError token "Start value must be a number")
  | Some start_n =>
      match as_number end_v with
      | None => raise (FluxRuntimeError token "End value must be a number")
      | Some end_n =>
          match as_number step_v with
          | None => raise (FluxRuntimeError token "Step value must be a number")
          | Some step_n =>
              if equals_zero step_v
              then raise (FluxRuntimeError token "Step cannot be zero")
              else
                let* e := gets env in
                let* loop_env := new_Environment (Some e) in
                Environment_define loop_env var_name start_v ;;
                for_loop var_name body loop_env end_n step_n steps start_n VNone
          end
      end
  end.

Fixpoint repeat_loop (body condition : AST) (fuel : nat) : M Value :=
  match fuel with
  | O => abort OutOfSteps
  | S fuel' =>
      let* result := evaluate (Some body) in
      let* c := evaluate (Some condition) in
      if is_truthy c then ret result else repeat_loop body condition fuel'
  end.

Definition visit_repeat_until (body condition : AST) : M Value :=
  repeat_loop body condition steps.

(** The [for case in node.cases] loop of [visit_match]. *)
Fixpoint match_loop (value : Value) (cases : list AST) : M Value :=
  match cases with
  | [] =>
      raise (FluxRuntimeError (mkToken (OTHER "MATCH") "match" 0) "No matching case found")
  | ast_1.MatchCase pattern body :: rest =>
      let* p := evaluate (Some pattern) in
      let* objs := gets objects in
      let* same := lift (py_eq depth objs value p) in
      if same then evaluate (Some body) else match_loop value rest
  | _ :: _ => raise (HostError AttributeError)
  end.

Definition visit_match (expression : AST) (cases : list AST) : M Value :=
  let* value := evaluate (Some expression) in
  match_loop value cases.

Definition visit_match_case (body : AST) : M Value := evaluate (Some body).

(** [Function(declaration, closure, is_anonymous)]: a new object, hence a
    new identity. *)
Definition new_Function (name : string) (params : list string) (body : AST)
    (is_anonymous : bool) : M Function :=
  let* id := gets next_function in
  let* closure := gets env in
  modify (with_next_function (S id)) ;;
  ret (mkFunction id name params body closure is_anonymous).

Definition visit_lambda (params : list string) (body : AST) : M Value :=
  let* f := new_Function "<anonymous>" params body true in
  ret (VFunction f).

Definition visit_func_def (name : string) (params : list string) (body : AST) : M Value :=
  let* func := new_Function name params body false in
  let* e := gets env in
  Environment_define e name (VFunction func) ;;
  ret (VFunction func).

Definition visit_func_call (callee : AST) (args : list AST) (token : option Token)
  : M Value :=
  let* c := evaluate (Some callee) in
  match c with
  | VFunction _ | VBuiltin _ =>
      let* arguments := mapM (λ arg, evaluate (Some arg)) args in
      let* tail := gets in_tail_position in
      let* current := gets current_function in
      match c with
      | VFunction f =>
          if tail && same_function c current then raise (TailCall f arguments)
          else call c arguments (default (mkToken (OTHER "IDENTIFIER") "function call" 0) token)
      | _ => call c arguments (default (mkToken (OTHER "IDENTIFIER") "function call" 0) token)
      end
  | _ =>
      match token with
      | Some t =>
          raise (FluxRuntimeError t ("Can only call functions, got: " +:+ type_name c))
      | None => abort (Unmodelled "str of a syntax node")
      end
  end.

Definition visit_return (value : option AST) : M Value :=
  let* was_tail := gets in_tail_position in
  let* current := gets current_function in
  modify (with_in_tail_position (bool_decide (current ≠ None))) ;;
  try_finally
    (let* v := evaluate value in
     let* tail := gets in_tail_position in
     match value with
     | Some (ast_1.FuncCall callee args _) =>
         if tail then
           let* c := evaluate (Some callee) in
           let* arguments := mapM (λ arg, evaluate (Some arg)) args in
           let* current := gets current_function in
           match c with
           | VFunction f =>
               if same_function c current then raise (TailCall f arguments)
               else raise (Return v)
           | _ => raise (Return v)
           end
         else raise (Return v)
     | _ => raise (Return v)
     end)
    (modify (with_in_tail_position was_tail)).

Definition new_Object (o : Object) : M nat :=
  λ s, (Ok (length (objects s)), with_objects (λ os, os ++ [o]) s).

Definition visit_array (elements : list AST) : M Value :=
  let* items := mapM (λ element, evaluate (Some element)) elements in
  let* ref := new_Object (OList items) in
  ret (VList ref).

(** [node.array if isinstance(node.array, str) else node.array.name] *)
Definition array_name_of (array : string + AST) : M string :=
  match array with
  | inl name => ret name
  | inr (ast_1.Var name _) | inr (ast_1.VarAssign name _)
  | inr (ast_1.VarReassign name _ _) | inr (ast_1.FuncDef name _ _) => ret name
  | inr _ => raise (HostError AttributeError)
  end.

Definition index_checks (token : Token) (what : string) (array index : Value)
  : M (nat * list Value * nat) :=
  let* objs := gets objects in
  match array with
  | VList ref =>
      match objs !! ref with
      | Some (OList items) =>
          match index with
          | VBool _ | VInt _ =>
              let i := match index with VBool b => Z.b2z b | VInt z => z | _ => 0%Z end in
              if (i <? 0)%Z || (Z.of_nat (length items) <=? i)%Z then
                let* shown := lift (py_str objs index) in
                raise (FluxRuntimeError token ("Array index " +:+ shown +:+ " out of bounds"))
              else ret (ref, items, Z.to_nat i)
          | _ =>
              raise (FluxRuntimeError token
                       ("Array index must be an integer, got " +:+ type_name index))
          end
      | _ => abort (Unmodelled "dangling reference")
      end
  | _ => raise (FluxRuntimeError token (what +:+ type_name array))
  end.

Definition visit_array_assign (array : string + AST) (index value : AST) (token : Token)
  : M Value :=
  let* array_name := array_name_of array in
  let* e := gets env in
  let* arr := Environment_get e array_name token in
  let* i := evaluate (Some index) in
  let* v := evaluate (Some value) in
  let* (ref, items, n) := index_checks token "Cannot assign to non-array type: " arr i in
  modify (with_objects (<[ref := OList (<[n := v]> items)]>)) ;;
  let* e' := gets env in
  Environment_assign e' array_name arr token ;;
  ret v.

Definition visit_array_access (array : string + AST) (index : AST) (token : Token)
  : M Value :=
  let* array_name := array_name_of array in
  let* e := gets env in
  let* arr := Environment_get e array_name token in
  let* i := evaluate (Some index) in
  let* (ref, items, n) := index_checks token "Cannot index non-array type: " arr i in
  match items !! n with
  | Some v => ret v
  | None => abort (Unmodelled "dangling reference")
  end.

(** [d[key] = value] while the dict display is built: an equal key keeps
    its place and takes the new value. *)
Fixpoint dict_store (items : list (Value * Value)) (key value : Value)
  : list (Value * Value) :=
  match items with
  | [] => [(key, value)]
  | (k, v) :: items' =>
      if scalar_eq k key then (k, value) :: items'
      else (k, v) :: dict_store items' key value
  end.

Fixpoint dict_pairs (pairs : list (AST * AST)) (items : list (Value * Value))
  : M (list (Value * Value)) :=
  match pairs with
  | [] => ret items
  | (k, v) :: pairs' =>
      let* key := evaluate (Some k) in
      let* value := evaluate (Some v) in
      match key with
      | VList _ | VDict _ => raise (HostError TypeError)
      | _ =>
          if is_nan_value key then abort (Unmodelled "identity of a float")
          else dict_pairs pairs' (dict_store items key value)
      end
  end.

Definition visit_dict (pairs : list (AST * AST)) : M Value :=
  let* items := dict_pairs pairs [] in
  let* ref := new_Object (ODict items) in
  ret (VDict ref).

Definition visit_conditional_expr (condition then_expr else_expr : AST) : M Value :=
  let* c := evaluate (Some condition) in
  if is_truthy c then evaluate (Some then_expr) else evaluate (Some else_expr).

(** [print(line)] *)
Definition print (line : string) : M unit :=
  modify (with_stdout (λ out, out ++ [line])).

Definition visit_print (expression : AST) : M Value :=
  let* value := evaluate (Some expression) in
  let* s := stringify value in
  print s ;;
  ret value.

(** [node.accept(self)]: one visitor method per node class. *)
Definition accept (node : AST) : M Value :=
  match node with
  | ast_1.Integer value => visit_integer value
  | ast_1.Float value => visit_float value
  | ast_1.String value => visit_string value
  | ast_1.Boolean value => visit_boolean value
  | ast_1.Var name token => visit_var name token
  | ast_1.VarAssign name value => visit_var_assign name value
  | ast_1.VarReassign name value token => visit_var_reassign name value token
  | ast_1.BinOp left_ operator right_ => visit_bin_op left_ operator right_
  | ast_1.UnaryOp operator right_ => visit_unary_op operator right_
  | ast_1.Block _ => visit_block node
  | ast_1.If condition then_branch else_branch => visit_if condition then_branch else_branch
  | ast_1.While condition body => visit_while condition body
  | ast_1.For var_name start end_ step body => visit_for var_name start end_ step body
  | ast_1.RepeatUntil body condition => visit_repeat_until body condition
  | ast_1.Match expression cases => visit_match expression cases
  | ast_1.MatchCase _ body => visit_match_case body
  | ast_1.FuncDef name params body => visit_func_def name params body
  | ast_1.FuncCall callee args token => visit_func_call callee args token
  | ast_1.Return value => visit_return value
  | ast_1.Lambda params body => visit_lambda params body
  | ast_1.Array elements => visit_array elements
  | ast_1.Dict pairs => visit_dict pairs
  | ast_1.ConditionalExpr condition then_expr else_expr =>
      visit_conditional_expr condition then_expr else_expr
  | ast_1.Print expression => visit_print expression
  | ast_1.ArrayAssign array index value token => visit_array_assign array index value token
  | ast_1.ArrayAccess array index token => visit_array_access array index token
  end.

(** ** Evaluator.builtin_len, BuiltinFunction.call *)

Definition builtin_len (arguments : list Value) (token : Token) : M Value :=
  match arguments with
  | [arg] =>
      let* objs := gets objects in
      match arg with
      | VNone => raise (FluxRuntimeError token "'len' cannot be applied to 'None'")
      | VStr s => ret (VInt (Z.of_nat (code_points s)))
      | VList ref | VDict ref =>
          match objs !! ref with
          | Some (OList items) => ret (VInt (Z.of_nat (length items)))
          | Some (ODict items) => ret (VInt (Z.of_nat (length items)))
          | None => abort (Unmodelled "dangling reference")
          end
      | _ =>
          raise (FluxRuntimeError token
                   ("'len' expects an array, string, or dictionary, but got "
                    +:+ type_name arg))
      end
  | _ =>
      raise (FluxRuntimeError token
               ("'len' expected 1 argument, got " +:+ pretty (length arguments)))
  end.

Definition BuiltinFunction_call (name : string) (arguments : list Value) (token : Token)
  : M Value :=
  if bool_decide (name = "len") then builtin_len arguments token
  else abort (Unmodelled "builtin").

(** ** Function.call: the trampoline *)

Definition arity_error (self : Function) (arguments : list Value) (token : Token)
  : Exception :=
  FluxRuntimeError token
    ("Expected " +:+ pretty (length (fn_params self)) +:+ " arguments, got "
     +:+ pretty (length arguments)).

(** The [while True] loop of [Function.call]: run the body in [env_]; on a
    [TailCall] for this same function rebind the parameters in [env_] and go
    round again. *)
Fixpoint trampoline (self : Function) (env_ : nat) (token : Token)
    (restore : M unit) (fuel : nat) : M Value :=
  match fuel with
  | O => abort OutOfSteps
  | S fuel' =>
      try_except
        (let* result := execute_block (fn_body self) env_ in
         restore ;;
         ret result)
        (λ e, match e with
              | TailCall function arguments =>
                  Some (if bool_decide (fn_id function ≠ fn_id self) then
                          restore ;;
                          call (VFunction function) arguments token
                        else if bool_decide (length arguments ≠ length (fn_params self))
                        then raise (arity_error self arguments token)
                        else
                          for_zip (λ param arg,
                                     Environment_assign env_ param arg token ;; ret tt)
                                  (fn_params self) arguments ;;
                          trampoline self env_ token restore fuel')
              | _ => None
              end)
  end.

Definition Function_call (self : Function) (arguments : list Value) (token : Token)
  : M Value :=
  if bool_decide (length arguments ≠ length (fn_params self))
  then raise (arity_error self arguments token)
  else
    let* env_ := new_Environment (Some (fn_closure self)) in
    for_zip (Environment_define env_) (fn_params self) arguments ;;
    let* prev_function := gets current_function in
    let* prev_env := gets env in
    let restore :=
      modify (with_current_function prev_function) ;; modify (with_env prev_env) in
    try_except
      (modify (with_current_function (Some self)) ;;
       modify (with_env env_) ;;
       trampoline self env_ token restore steps)
      (λ e, match e with
            | Return value => Some (restore ;; ret value)
            | _ => None
            end).

(** [callee.call(self, arguments, token)] *)
Definition callable_call (callee : Value) (arguments : list Value) (token : Token)
  : M Value :=
  match callee with
  | VFunction f => Function_call f arguments token
  | VBuiltin name => BuiltinFunction_call name arguments token
  | _ => raise (HostError AttributeError)
  end.

End Visitor.

(** ** Evaluator.evaluate and the calls, by recursion on the native depth *)

Fixpoint evaluate (steps depth : nat) (node : option AST) {struct depth} : M Value :=
  match depth with
  | O => raise (HostError RecursionError)
  | S d =>
      match node with
      | None => ret VNone
      | Some n => accept steps d (evaluate steps d) (call steps d) n
      end
  end
with call (steps depth : nat) (callee : Value) (arguments : list Value) (token : Token)
    {struct depth} : M Value :=
  match depth with
  | O => raise (HostError RecursionError)
  | S d => callable_call steps (evaluate steps d) (call steps d) callee arguments token
  end.

(** ** Evaluator.__init__ and Evaluator.interpret *)

Definition Evaluator_init : Evaluator :=
  mkEvaluator [mkEnvironment None {["len" := VBuiltin "len"]}] [] 0 0 0 None false [].

Definition interpret (steps depth : nat) (tree : AST) : M Value :=
  try_except
    (let* g := gets global_env in execute_block (evaluate steps depth) tree g)
    (λ e, match e with
          | FluxRuntimeError token message =>
              Some (print (error_message token message) ;; ret VNone)
          | Return _ => Some (print "Internal error: " ;; ret VNone)
          | _ => Some (abort (Unmodelled "text of a host exception"))
          end).

(** A whole program: the final value (or how evaluation ended) and the
    lines printed. *)
Definition run (steps depth : nat) (tree : AST) : Outcome Value * list string :=
  let '(r, s) := interpret steps depth tree Evaluator_init in (r, stdout s).

(** ** The reference semantics: naive recursion

    This second evaluator follows the specification's words, not the source:
    "a call creates one fresh Environment whose parent is the closure
    environment, binds each parameter name to its evaluated argument value,
    then evaluates the function body Block inside that Environment", and
    "a normal return unwinds to the nearest enclosing call-handling point
    carrying the value".  Every call is an ordinary, natively recursive call:
    there is no tail-position flag, no [TailCall] and no trampoline.  All
    other node classes are evaluated by the visitor methods above. *)

Module Reference.

Section Visitor.

Variable steps : nat.
Variable depth : nat.
Variable evaluate : option AST → M Value.
Variable call : Value → list Value → Token → M Value.

Fixpoint block_loop (statements : list AST) (result : Value) : M Value :=
  match statements with
  | [] => ret result
  | ast_1.Return value :: _ =>
      let* v := evaluate value in raise (Return v)
  | stmt :: rest =>
      let* r := evaluate (Some stmt) in block_loop rest r
  end.

Definition execute_block (block : AST) (env_ : nat) : M Value :=
  let* previous_env := gets env in
  modify (with_env env_) ;;
  try_finally
    (let* statements := statements_of block in block_loop statements VNone)
    (modify (with_env previous_env)).

Definition visit_block (node : AST) : M Value :=
  let* e := gets env in
  let* child := new_Environment (Some e) in
  execute_block node child.

Fixpoint for_loop (var_name : string) (body : AST) (loop_env : nat)
    (end_ step : Number) (fuel : nat) (current : Number) (result : Value) : M Value :=
  match fuel with
  | O => abort OutOfSteps
  | S fuel' =>
      if (py_gt step (NInt 0) && py_le current end_)
         || (py_lt step (NInt 0) && py_ge current end_)
      then
        let* body_env := new_Environment (Some loop_env) in
        let* r := execute_block body body_env in
        let* next := lift (py_add current step) in
        Environment_assign loop_env var_name next (mkToken (OTHER "IDENTIFIER") var_name 0) ;;
        match as_number next with
        | Some n => for_loop var_name body loop_env end_ step fuel' n r
        | None => raise (HostError TypeError)
        end
      else ret result
  end.

Definition visit_for (var_name : string) (start end_ : AST) (step : option AST)
    (body : AST) : M Value :=
  let* start_v := evaluate (Some start) in
  let* end_v := evaluate (Some end_) in
  let* step_v := match step with
                 | Some s => evaluate (Some s)
                 | None => ret (VInt 1)
                 end in
  let token := mkToken (OTHER "IDENTIFIER") var_name 0 in
  match as_number start_v with
  | None => raise (FluxRuntimeError token "Start value must be a number")
  | Some start_n =>
      match as_number end_v with
      | None => raise (FluxRuntimeError token "End value must be a number")
      | Some end_n =>
          match as_number step_v with
          | None => raise (FluxRuntimeError token "Step value must be a number")
          | Some step_n =>
              if equals_zero step_v
              then raise (FluxRuntimeError token "Step cannot be zero")
              else
                let* e := gets env in
                let* loop_env := new_Environment (Some e) in
                Environment_define loop_env var_name start_v ;;
                for_loop var_name body loop_env end_n step_n steps start_n VNone
          end
      end
  end.

Definition visit_func_call (callee : AST) (args : list AST) (token : option Token)
  : M Value :=
  let* c := evaluate (Some callee) in
  match c with
  | VFunction _ | VBuiltin _ =>
      let* arguments := mapM (λ arg, evaluate (Some arg)) args in
      call c arguments (default (mkToken (OTHER "IDENTIFIER") "function call" 0) token)
  | _ =>
      match token with
      | Some t =>
          raise (FluxRuntimeError t ("Can only call functions, got: " +:+ type_name c))
      | None => abort (Unmodelled "str of a syntax node")
      end
  end.

Definition visit_return (value : option AST) : M Value :=
  let* v := evaluate value in raise (Return v).

Definition accept (node : AST) : M Value :=
  match node with
  | ast_1.Integer value => visit_integer value
  | ast_1.Float value => visit_float value
  | ast_1.String value => visit_string value
  | ast_1.Boolean value => visit_boolean value
  | ast_1.Var name token => visit_var name token
  | ast_1.VarAssign name value => visit_var_assign evaluate name value
  | ast_1.VarReassign name value token => visit_var_reassign evaluate name value token
  | ast_1.BinOp left_ operator right_ => visit_bin_op depth evaluate left_ operator right_
  | ast_1.UnaryOp operator right_ => visit_unary_op evaluate operator right_
  | ast_1.Block _ => visit_block node
  | ast_1.If condition then_branch else_branch =>
      visit_if evaluate condition then_branch else_branch
  | ast_1.While condition body => visit_while steps evaluate condition body
  | ast_1.For var_name start end_ step body => visit_for var_name start end_ step body
  | ast_1.RepeatUntil body condition => visit_repeat_until steps evaluate body condition
  | ast_1.Match expression cases => visit_match depth evaluate expression cases
  | ast_1.MatchCase _ body => visit_match_case evaluate body
  | ast_1.FuncDef name params body => visit_func_def name params body
  | ast_1.FuncCall callee args token => visit_func_call callee args token
  | ast_1.Return value => visit_return value
  | ast_1.Lambda params body => visit_lambda params body
  | ast_1.Array elements => visit_array evaluate elements
  | ast_1.Dict pairs => visit_dict evaluate pairs
  | ast_1.ConditionalExpr condition then_expr else_expr =>
      visit_conditional_expr evaluate condition then_expr else_expr
  | ast_1.Print expression => visit_print evaluate expression
  | ast_1.ArrayAssign array index value token =>
      visit_array_assign evaluate array index value token
  | ast_1.ArrayAccess array index token => visit_array_access evaluate array index token
  end.

Definition Function_call (self : Function) (arguments : list Value) (token : Token)
  : M Value :=
  if bool_decide (length arguments ≠ length (fn_params self))
  then raise (arity_error self arguments token)
  else
    let* env_ := new_Environment (Some (fn_closure self)) in
    for_zip (Environment_define env_) (fn_params self) arguments ;;
    let* prev_function := gets current_function in
    let* prev_env := gets env in
    let restore :=
      modify (with_current_function prev_function) ;; modify (with_env prev_env) in
    try_except
      (modify (with_current_function (Some self)) ;;
       modify (with_env env_) ;;
       let* result := execute_block (fn_body self) env_ in
       restore ;;
       ret result)
      (λ e, match e with
            | Return value => Some (restore ;; ret value)
            | _ => None
            end).

Definition callable_call (callee : Value) (arguments : list Value) (token : Token)
  : M Value :=
  match callee with
  | VFunction f => Function_call f arguments token
  | VBuiltin name => BuiltinFunction_call name arguments token
  | _ => raise (HostError AttributeError)
  end.

End Visitor.

Fixpoint evaluate (steps depth : nat) (node : option AST) {struct depth} : M Value :=
  match depth with
  | O => raise (HostError RecursionError)
  | S d =>
      match node with
      | None => ret VNone
      | Some n => accept steps d (evaluate steps d) (call steps d) n
      end
  end
with call (steps depth : nat) (callee : Value) (arguments : list Value) (token : Token)
    {struct depth} : M Value :=
  match depth with
  | O => raise (HostError RecursionError)
  | S d => callable_call (evaluate steps d) callee arguments token
  end.

Definition interpret (steps depth : nat) (tree : AST) : M Value :=
  try_except
    (let* g := gets global_env in execute_block (evaluate steps depth) tree g)
    (λ e, match e with
          | FluxRuntimeError token message =>
              Some (print (error_message token message) ;; ret VNone)
          | Return _ => Some (print "Internal error: " ;; ret VNone)
          | _ => Some (abort (Unmodelled "text of a host exception"))
          end).

Definition run (steps depth : nat) (tree : AST) : Outcome Value * list string :=
  let '(r, s) := interpret steps depth tree Evaluator_init in (r, stdout s).

End Reference.

(** * Vocabulary of the properties *)

Definition is_Integer_or_Float (v : Value) : Prop :=
  match v with VInt _ | VFloat _ => True | _ => False end.


(** Tokens and identifiers as a front end would build them. *)
Definition op (t : TokenType) (lexeme : string) : Token := mkToken t lexeme 1.
Definition ident (name : string) : AST :=
  ast_1.Var name (mkToken (OTHER "IDENTIFIER") name 1).
Definition paren : option Token := Some (mkToken (OTHER "LPAREN") "(" 1).

(** The operators of claim C3. *)
Definition arithmetic_or_comparison (t : TokenType) : Prop :=
  t ∈ [MINUS; MULTIPLY; DIVIDE; EXPONENT; REM; LT; GT; LTE; GTE].


(** Kinds that are not numbers in the host either (a Boolean is one there). *)
Definition not_numeric_kind (v : Value) : Prop :=
  match v with
  | VNone | VStr _ | VList _ | VDict _ | VFunction _ | VBuiltin _ => True
  | _ => False
  end.

Definition same_numeric_kind (l r : Value) : Prop :=
  match l, r with
  | VInt _, VInt _ | VFloat _, VFloat _ => True
  | _, _ => False
  end.



(** [float(v)] does not fail: an Integer operand is one that has a Float
    (rounding it to the nearest Float does not overflow); a Float operand is
    its own Float. *)
Definition converts (v : Value) : bool :=
  match v with
  | VInt z => Float64.is_finite (Float64.of_Z z)
  | _ => true
  end.

(** The Float that the host computes with when the operands are not both
    Integers. *)
Definition as_float (v : Value) : spec_float :=
  match v with
  | VInt z => Float64.of_Z z
  | VFloat f => f
  | _ => S754_nan
  end.

(** When [-], [*], [/] and [%] overflow on Integer and Float operands (the
    divisor not being zero): the quotient of two Integers is beyond the
    Floats, or an Integer operand next to a Float has no Float.  Two Floats
    never overflow (the result is then an infinity), and neither do [-],
    [*] and [%] on two Integers. *)
Definition overflows (t : TokenType) (l r : Value) : bool :=
  match l, r with
  | VInt x, VInt y =>
      match t with
      | DIVIDE =>
          negb (Float64.is_finite
                  (Float64.div (Float64.exact_of_Z x) (Float64.exact_of_Z y)))
      | _ => false
      end
  | _, _ => negb (converts l && converts r)
  end.

(** The quotient of two numbers: of two Integers, the exact quotient
    rounded once to the nearest Float; otherwise the IEEE quotient of the
    operands as Floats. *)
Definition quotient (l r : Value) : Value :=
  match l, r with
  | VInt x, VInt y => VFloat (Float64.div (Float64.exact_of_Z x) (Float64.exact_of_Z y))
  | _, _ => VFloat (Float64.div (as_float l) (as_float r))
  end.

(** The remainder of two numbers, which has the sign of the divisor: of two
    Integers, the Integer [x - y * floor(x / y)]; otherwise the remainder of
    the operands as Floats. *)
Definition remainder (l r : Value) : Value :=
  match l, r with
  | VInt x, VInt y => VInt (x `mod` y)
  | _, _ => VFloat (Float64.rem (as_float l) (as_float r))
  end.

(** The float [f] is exactly the rational [a / b]. *)
Definition exact_quotient (f : spec_float) (a b : Z) : Prop :=
  match f with
  | S754_zero _ => a = 0%Z
  | S754_finite sg m e =>
      ((if sg then -1 else 1) * Z.pos m * 2 ^ Z.max 0 e * b = a * 2 ^ Z.max 0 (- e))%Z
  | _ => False
  end.

(** The kinds of runtime value. *)
Inductive Kind : Set :=
  | KNil | KBoolean | KInteger | KFloat | KString | KArray | KDict | KFunction
  | KBuiltinFunction.

Definition kind_of (v : Value) : Kind :=
  match v with
  | VNone => KNil
  | VBool _ => KBoolean
  | VInt _ => KInteger
  | VFloat _ => KFloat
  | VStr _ => KString
  | VList _ => KArray
  | VDict _ => KDict
  | VFunction _ => KFunction
  | VBuiltin _ => KBuiltinFunction
  end.





Definition three_halves : spec_float := Float64.div (Float64.of_Z 3) (Float64.of_Z 2).

(** The cases of a [match] that are tried and do not match: each pattern
    is evaluated, in order, to a value different from [value]; the bodies
    are not evaluated. *)
Inductive cases_miss (ev : option AST → M Value) (depth : nat) (value : Value)
  : list AST → Evaluator → Evaluator → Prop :=
  | miss_nil s : cases_miss ev depth value [] s s
  | miss_cons pattern body rest s pv s1 s2 :
      ev (Some pattern) s = (Ok pv, s1) →
      py_eq depth (objects s1) value pv = Ok false →
      cases_miss ev depth value rest s1 s2 →
      cases_miss ev depth value (ast_1.MatchCase pattern body :: rest) s s2.

Definition no_matching_case : Exception :=
  FluxRuntimeError (mkToken (OTHER "MATCH") "match" 0) "No matching case found".

(** [match scrutinee { 1 -> "a", 2 -> "b" }] *)
Definition match_a_b (scrutinee : Z) : AST :=
  ast_1.Match (ast_1.Integer scrutinee)
    [ast_1.MatchCase (ast_1.Integer 1) (ast_1.String "a");
     ast_1.MatchCase (ast_1.Integer 2) (ast_1.String "b")].


(** The initial state after [var x = 1] at top level. *)
Definition x_is_one : Evaluator :=
  with_envs (alter (set_variable "x" (VInt 1)) 0) Evaluator_init.

(** [func fact(n) { if n <= 1 { return 1 } return n * fact(n - 1) }  fact(3)] *)
Definition factorial_program : AST :=
  ast_1.Block
    [ast_1.FuncDef "fact" ["n"]
       (ast_1.Block
          [ast_1.If (ast_1.BinOp (ident "n") (op LTE "<=") (ast_1.Integer 1))
             (ast_1.Block [ast_1.Return (Some (ast_1.Integer 1))]) None;
           ast_1.Return
             (Some (ast_1.BinOp (ident "n") (op MULTIPLY "*")
                      (ast_1.FuncCall (ident "fact")
                         [ast_1.BinOp (ident "n") (op MINUS "-") (ast_1.Integer 1)]
                         paren)))]);
     ast_1.FuncCall (ident "fact") [ast_1.Integer 3] paren].

(** [func g(x) { return x }  func f() { return g(print 1) }  f()] *)
Definition logged_argument_program : AST :=
  ast_1.Block
    [ast_1.FuncDef "g" ["x"] (ast_1.Block [ast_1.Return (Some (ident "x"))]);
     ast_1.FuncDef "f" []
       (ast_1.Block
          [ast_1.Return
             (Some (ast_1.FuncCall (ident "g") [ast_1.Print (ast_1.Integer 1)] paren))]);
     ast_1.FuncCall (ident "f") [] paren].

(** [func f(n) { if n > 0 { f(n - 1) } print n }  f(2)] *)
Definition countdown_program : AST :=
  ast_1.Block
    [ast_1.FuncDef "f" ["n"]
       (ast_1.Block
          [ast_1.If (ast_1.BinOp (ident "n") (op GT ">") (ast_1.Integer 0))
             (ast_1.Block
                [ast_1.FuncCall (ident "f")
                   [ast_1.BinOp (ident "n") (op MINUS "-") (ast_1.Integer 1)] paren])
             None;
           ast_1.Print (ident "n")]);
     ast_1.FuncCall (ident "f") [ast_1.Integer 2] paren].

(** [func f(n, g) { if n == 0 { return g() }
                    return f(n - 1, lambda() { return n }) }  f(1, 0)] *)
Definition closure_program : AST :=
  ast_1.Block
    [ast_1.FuncDef "f" ["n"; "g"]
       (ast_1.Block
          [ast_1.If (ast_1.BinOp (ident "n") (op EQEQ "==") (ast_1.Integer 0))
             (ast_1.Block [ast_1.Return (Some (ast_1.FuncCall (ident "g") [] paren))])
             None;
           ast_1.Return
             (Some (ast_1.FuncCall (ident "f")
                      [ast_1.BinOp (ident "n") (op MINUS "-") (ast_1.Integer 1);
                       ast_1.Lambda [] (ast_1.Block [ast_1.Return (Some (ident "n"))])]
                      paren))]);
     ast_1.FuncCall (ident "f") [ast_1.Integer 1; ast_1.Integer 0] paren].

(** [func sum(n, acc) { if n == 0 { return acc } return sum(n - 1, acc + n) }] *)
Definition sum_body : AST :=
  ast_1.Block
    [ast_1.If (ast_1.BinOp (ident "n") (op EQEQ "==") (ast_1.Integer 0))
       (ast_1.Block [ast_1.Return (Some (ident "acc"))]) None;
     ast_1.Return
       (Some (ast_1.FuncCall (ident "sum")
                [ast_1.BinOp (ident "n") (op MINUS "-") (ast_1.Integer 1);
                 ast_1.BinOp (ident "acc") (op PLUS "+") (ident "n")]
                paren))].

(** The definition above, followed by the call [sum(N, 0)]. *)
Definition sum_program (N : Z) : AST :=
  ast_1.Block
    [ast_1.FuncDef "sum" ["n"; "acc"] sum_body;
     ast_1.FuncCall (ident "sum") [ast_1.Integer N; ast_1.Integer 0] paren].

(** The directly recursive reference for [sum]: [N + (N-1) + ... + 1]. *)
Fixpoint sum_to (n : nat) : Z :=
  match n with
  | O => 0
  | S k => Z.of_nat n + sum_to k
  end.

(** The [Function] object that [sum_program] creates. *)
Definition sum_function : Function := mkFunction 0 "sum" ["n"; "acc"] sum_body 0 false.

(** The evaluator inside the one activation of [sum]: the global
    environment, and the call environment that binds [n] and [acc]. *)
Definition sum_frame (n acc : Z) (tail : bool) : Evaluator :=
  mkEvaluator
    [mkEnvironment None (<["sum" := VFunction sum_function]> {["len" := VBuiltin "len"]});
     mkEnvironment (Some 0) (<["acc" := VInt acc]> (<["n" := VInt n]> ∅))]
    [] 1 0 1 (Some sum_function) tail [].

Definition call_token : Token := mkToken (OTHER "LPAREN") "(" 1.

(** What [Function.call] does on leaving the activation made at top level. *)
Definition sum_restore : M unit :=
  modify (with_current_function None) ;; modify (with_env 0).

(** * The rest of class Environment *)

(** The loop of [Environment.ancestor]: up to [n] steps along [parent],
    stopping early at an environment that has none. *)
Fixpoint ancestor_walk (es : list Environment) (n : nat) (self : nat) : nat :=
  match n with
  | O => self
  | S n' =>
      match es !! self with
      | Some r =>
          match parent r with
          | Some p => ancestor_walk es n' p
          | None => self
          end
      | None => self
      end
  end.

(** [Environment.ancestor]; [range(distance)] is empty for a negative
    [distance]. *)
Definition Environment_ancestor (self : nat) (distance : Z) : M nat :=
  let* es := gets envs in ret (ancestor_walk es (Z.to_nat distance) self).

(** [Environment.get_at]: [dict.get] gives [None] for a missing name. *)
Definition Environment_get_at (self : nat) (distance : Z) (name : string) : M Value :=
  let* a := Environment_ancestor self distance in
  let* es := gets envs in
  match es !! a with
  | Some r => ret (default VNone (variables r !! name))
  | None => abort (Unmodelled "dangling reference")
  end.

(** [Environment.assign_at] *)
Definition Environment_assign_at (self : nat) (distance : Z) (name : string)
    (value : Value) : M Value :=
  let* a := Environment_ancestor self distance in
  Environment_define a name value ;;
  ret value.

(** * Vocabulary of the further properties *)

Definition undefined_variable (token : Token) (name : string) : Exception :=
  FluxRuntimeError token ("Undefined variable '" +:+ name +:+ "'").

Definition cannot_reassign (token : Token) (name : string) : Exception :=
  FluxRuntimeError token ("Cannot reassign undefined variable '" +:+ name +:+ "'").

(** Every [parent] of the arena is an environment of the arena. *)
Definition parents_valid (es : list Environment) : Prop :=
  ∀ i r p, es !! i = Some r → parent r = Some p → p < length es.

(** The global scope with [x = 1], and a child scope of it with [y = 2]. *)
Definition two_scopes : Evaluator :=
  mkEvaluator
    [mkEnvironment None (<["x" := VInt 1]> {["len" := VBuiltin "len"]});
     mkEnvironment (Some 0) {["y" := VInt 2]}]
    [] 0 0 1 None false [].

Definition not_callable (v : Value) : Prop :=
  match v with VFunction _ | VBuiltin _ => False | _ => True end.

Definition can_only_call (token : Token) (v : Value) : Exception :=
  FluxRuntimeError token ("Can only call functions, got: " +:+ type_name v).



(** Kinds that have a length. *)
Definition has_length (v : Value) : Prop :=
  match v with VStr _ | VList _ | VDict _ => True | _ => False end.


(** The evaluator with one array [[10, 20, 30]] that both [a] and [b] name. *)
Definition shared_array : Evaluator :=
  mkEvaluator
    [mkEnvironment None
       (<["b" := VList 0]> (<["a" := VList 0]> {["len" := VBuiltin "len"]}))]
    [OList [VInt 10; VInt 20; VInt 30]] 0 0 0 None false [].

(** The mapping that the loop
    [for param, arg in zip(self.params, arguments): env.define(param, arg)]
    leaves in an environment whose mapping was [m]. *)
Definition bind_parameters (params : list string) (arguments : list Value)
    (m : gmap string Value) : gmap string Value :=
  foldl (λ m' pa, <[pa.1 := pa.2]> m') m (zip params arguments).

(** A body that consists of [return name]. *)
Definition returns_variable (name : string) (token : Token) : AST :=
  ast_1.Block [ast_1.Return (Some (ast_1.Var name token))].

(** A function [get_x(p) { return x }] defined at top level, and a caller
    whose own scope binds [x] to 99 while the global scope binds it to 1. *)
Definition get_x : Function :=
  mkFunction 0 "get_x" ["p"] (returns_variable "x" (op (OTHER "IDENTIFIER") "x")) 0 false.

Definition caller_shadows_x : Evaluator :=
  mkEvaluator
    [mkEnvironment None (<["x" := VInt 1]> {["len" := VBuiltin "len"]});
     mkEnvironment (Some 0) {["x" := VInt 99]}]
    [] 1 0 1 None false [].

(** The condition of the [while] loop of [visit_for], on Integers. *)
Definition in_range (step current end_ : Z) : bool :=
  ((0 <? step)%Z && (current <=? end_)%Z) || ((step <? 0)%Z && (end_ <=? current)%Z).

(** The number of iterations of [for i = a to b step c]. *)
Definition for_count (a b c : Z) : nat :=
  if (0 <? c)%Z then Z.to_nat ((b - a) `div` c + 1)
  else if (c <? 0)%Z then Z.to_nat ((a - b) `div` (- c) + 1)
  else 0.

(** The values the loop variable takes: [a], [a + c], ... ([n] of them). *)
Definition for_values (a c : Z) (n : nat) : list Z :=
  (λ k, a + Z.of_nat k * c)%Z <$> seq 0 n.

(** [{ print i }] *)
Definition print_variable (name : string) : AST :=
  ast_1.Block [ast_1.Print (ident name)].

(** The evaluator after the definition of [sum] at top level. *)
Definition sum_defined : Evaluator :=
  mkEvaluator
    [mkEnvironment None (<["sum" := VFunction sum_function]> {["len" := VBuiltin "len"]})]
    [] 1 0 0 None false [].

(** A computation that, when it returns normally, leaves [self.env] and
    [self.current_function] as it found them. *)
Definition keeps_scope {A} (m : M A) : Prop :=
  ∀ s v s', m s = (Ok v, s') →
    env s' = env s ∧ current_function s' = current_function s.

(** A computation that, when it returns normally, has put [self.env] and
    [self.current_function] to the given values. *)
Definition lands_at {A} (e : nat) (f : option Function) (m : M A) : Prop :=
  ∀ s v s', m s = (Ok v, s') → env s' = e ∧ current_function s' = f.

(** A computation all of whose runs, however they end, take the evaluator
    from a state to one related to it by [R]. *)
Definition respects (R : Evaluator → Evaluator → Prop) {A} (m : M A) : Prop :=
  ∀ s o s', m s = (o, s') → R s s'.

(** Every line printed so far is still there, in place. *)
Definition output_extends (s s' : Evaluator) : Prop :=
  stdout s `prefix_of` stdout s'.

(** Every array is still there with the length it had, and every
    dictionary with the entries it had. *)
Definition heap_extends (s s' : Evaluator) : Prop :=
  ∀ ref o, objects s !! ref = Some o →
    match o with
    | OList items =>
        ∃ items', objects s' !! ref = Some (OList items') ∧ length items' = length items
    | ODict _ => objects s' !! ref = Some o
    end.
(** * Properties *)

(** ** The float operations on examples *)

Example float_third : Float64.div (Float64.of_Z 1) (Float64.of_Z 3)
                      = S754_finite false 6004799503160661 (-54).
Proof. reflexivity. Qed.

Example float_rem_neg : Float64.rem (Float64.of_Z (-7)) (Float64.of_Z 3) = Float64.of_Z 2.
Proof. reflexivity. Qed.

Example float_is_integer_half :
  Float64.is_integer (Float64.div (Float64.of_Z 1) (Float64.of_Z 2)) = false
  ∧ Float64.is_integer (Float64.of_Z 6) = true
  ∧ Float64.to_Z (Float64.of_Z 6) = 6%Z.
Proof. repeat split. Qed.

(** ** Stepping through the monad *)

Lemma bind_ok {A B} (m : M A) (k : A → M B) s a s' :
  m s = (Ok a, s') → bind m k s = k a s'.
Proof. unfold bind. by intros ->. Qed.

Lemma bind_raise {A B} (m : M A) (k : A → M B) s e s' :
  m s = (Raise e, s') → bind m k s = (Raise e, s').
Proof. unfold bind. by intros ->. Qed.

Lemma bind_abort {A B} (m : M A) (k : A → M B) s why s' :
  m s = (Abort why, s') → bind m k s = (Abort why, s').
Proof. unfold bind. by intros ->. Qed.

(** ** Rounding an integer to a float *)

Lemma shr_1_m (mrs : shr_record) :
  (0 ≤ shr_m mrs)%Z → shr_m (shr_1 mrs) = Z.div2 (shr_m mrs).
Proof. destruct mrs as [[|[p|p|]|p] r s]; cbn; try done. Qed.

Lemma iter_shr_1_m (n : positive) :
  ∀ mrs, (0 ≤ shr_m mrs)%Z →
    shr_m (SpecFloat.iter_pos shr_1 n mrs) = Z.shiftr (shr_m mrs) (Z.pos n).
Proof.
  induction n as [n IH|n IH|]; intros mrs Hm; cbn [SpecFloat.iter_pos].
  - assert (0 ≤ shr_m (shr_1 mrs))%Z as H1.
    { rewrite shr_1_m by done. apply Z.div2_nonneg. done. }
    assert (0 ≤ shr_m (SpecFloat.iter_pos shr_1 n (shr_1 mrs)))%Z as H2.
    { rewrite IH by done. apply Z.shiftr_nonneg. done. }
    rewrite IH, IH, shr_1_m by done.
    rewrite Z.div2_spec, !Z.shiftr_shiftr by lia. f_equal. lia.
  - assert (0 ≤ shr_m (SpecFloat.iter_pos shr_1 n mrs))%Z as H2.
    { rewrite IH by done. apply Z.shiftr_nonneg. done. }
    rewrite IH, IH by done. rewrite Z.shiftr_shiftr by lia. f_equal. lia.
  - rewrite shr_1_m by done. by rewrite Z.div2_spec.
Qed.

Lemma digits2_pos_lower (p : positive) : (2 ^ (Z.pos (digits2_pos p) - 1) ≤ Z.pos p)%Z.
Proof.
  induction p as [p IH|p IH|]; cbn [digits2_pos]; [| |done].
  all: rewrite Pos2Z.inj_succ; replace (Z.succ (Z.pos (digits2_pos p)) - 1)%Z
         with (Z.succ (Z.pos (digits2_pos p) - 1))%Z by lia;
       rewrite Z.pow_succ_r by lia; lia.
Qed.

Lemma shr_fexp_positive (m e : Z) (mrs' : shr_record) (e' : Z) :
  (0 < m)%Z → (emin 53 1024 < Zdigits2 m + e)%Z →
  shr_fexp 53 1024 m e loc_Exact = (mrs', e') →
  (0 < shr_m mrs')%Z
  ∧ ((mrs' = Build_shr_record m false false ∧ e' = e) ∨ (emin 53 1024 ≤ e')%Z).
Proof.
  intros Hm He. unfold shr_fexp, shr. cbn [shr_record_of_loc].
  destruct m as [|p|p]; [lia| |lia]. cbn [Zdigits2] in *.
  pose proof (digits2_pos_lower p) as Hp.
  destruct (fexp 53 1024 (Z.pos (digits2_pos p) + e) - e)%Z as [|k|k] eqn:Ek;
    intros [= <- <-]; cbn [shr_m]; try (split; [lia|by left]).
  assert (Z.pos k < Z.pos (digits2_pos p))%Z as Hk.
  { unfold fexp, emin in *. lia. }
  split.
  - rewrite iter_shr_1_m by done. cbn [shr_m].
    rewrite Z.shiftr_div_pow2 by lia.
    apply Z.div_str_pos. split; [by apply Z.pow_pos_nonneg|].
    etrans; [|exact Hp]. apply Z.pow_le_mono_r; lia.
  - right. unfold fexp in Ek. lia.
Qed.

Lemma binary_round_aux_nonzero (sx : bool) (m e : Z) :
  (0 < m)%Z → (emin 53 1024 < Zdigits2 m + e)%Z →
  Float64.is_zero (binary_round_aux 53 1024 sx m e loc_Exact) = false.
Proof.
  intros Hm He. unfold binary_round_aux.
  destruct (shr_fexp 53 1024 m e loc_Exact) as [mrs' e'] eqn:E1.
  destruct (shr_fexp_positive _ _ _ _ Hm He E1) as [Hm' Hcase].
  set (m1 := round_nearest_even (shr_m mrs') (loc_of_shr_record mrs')).
  assert (0 < m1)%Z as Hm1.
  { subst m1. unfold round_nearest_even.
    destruct (loc_of_shr_record mrs') as [|[]]; try lia.
    destruct (Z.even (shr_m mrs')); lia. }
  assert (emin 53 1024 < Zdigits2 m1 + e')%Z as He1.
  { destruct Hcase as [[-> ->] | He'].
    - subst m1. by cbn.
    - destruct m1 as [|q|q]; [lia| |lia]. cbn [Zdigits2]. lia. }
  destruct (shr_fexp 53 1024 m1 e' loc_Exact) as [mrs'' e''] eqn:E2.
  destruct (shr_fexp_positive _ _ _ _ Hm1 He1 E2) as [Hm'' _].
  destruct (shr_m mrs'') as [|q|q]; [lia| |lia].
  by destruct (e'' <=? 1024 - 53)%Z.
Qed.

Lemma of_Z_nonzero (z : Z) : z ≠ 0%Z → Float64.is_zero (Float64.of_Z z) = false.
Proof.
  intros Hz. unfold Float64.of_Z, binary_normalize.
  assert (∀ sx p, Float64.is_zero (binary_round Float64.prec Float64.emax sx p 0) = false)
    as H.
  { intros sx p. unfold binary_round, Float64.prec, Float64.emax.
    destruct (shl_align p 0 (fexp 53 1024 (Z.pos (digits2_pos p) + 0))) as [mz ez] eqn:E.
    apply binary_round_aux_nonzero; [done|]. cbn [Zdigits2].
    revert E. unfold shl_align.
    destruct (fexp 53 1024 (Z.pos (digits2_pos p) + 0) - 0)%Z eqn:Ek; intros [= <- <-];
      unfold fexp, emin in *; lia. }
  destruct z; [done|apply H|apply H].
Qed.

(** ** Numbers and zero *)

Lemma shiftl_pos_positive (m : positive) (n : Z) : (0 ≤ n → 0 < Z.shiftl (Z.pos m) n)%Z.
Proof.
  intros Hn. rewrite Z.shiftl_mul_pow2 by done.
  apply Z.mul_pos_pos; [done|]. by apply Z.pow_pos_nonneg.
Qed.

Lemma equals_zero_int (z : Z) : equals_zero (VInt z) = bool_decide (z = 0%Z).
Proof.
  unfold equals_zero, num_eq; simpl.
  destruct (Z.compare_spec z 0); case_bool_decide; try done; lia.
Qed.

Lemma equals_zero_float (f : spec_float) : equals_zero (VFloat f) = Float64.is_zero f.
Proof.
  unfold equals_zero, num_eq; simpl. destruct f as [sg|sg| |sg m e]; simpl; try done.
  - by destruct sg.
  - rewrite Z.shiftl_0_l.
    pose proof (shiftl_pos_positive m (e + Z.max 0 (- e)) ltac:(lia)) as Hpos.
    destruct sg; simpl.
    + destruct (-1 * Z.shiftl (Z.pos m) (e + Z.max 0 (- e)))%Z eqn:E; simpl; try done; lia.
    + destruct (1 * Z.shiftl (Z.pos m) (e + Z.max 0 (- e)))%Z eqn:E; simpl; try done; lia.
Qed.

(** C7: the truthiness rule.  [is_truthy] is false exactly on Nil, Boolean
    false, Integer 0, a Float zero (0.0 or -0.0) and the empty String; every
    other value, among them every Array and Dict (empty or not), every
    non-zero number, every non-empty String and every Function or
    BuiltinFunction, is true. *)
Theorem is_truthy_false_iff (v : Value) :
  (is_truthy v = false ↔
     v = VNone ∨ v = VBool false ∨ v = VInt 0 ∨ (∃ sg, v = VFloat (S754_zero sg))
     ∨ v = VStr "")
  ∧ (∀ ref, is_truthy (VList ref) = true ∧ is_truthy (VDict ref) = true)
  ∧ (∀ f, is_truthy (VFunction f) = true)
  ∧ (∀ name, is_truthy (VBuiltin name) = true).
Proof.
  split; [|by repeat split].
  assert (Hno : ∀ w : Value,
            (w = VNone ∨ w = VBool false ∨ w = VInt 0
             ∨ (∃ sg, w = VFloat (S754_zero sg)) ∨ w = VStr "" → False) →
            true = false ↔
              w = VNone ∨ w = VBool false ∨ w = VInt 0
              ∨ (∃ sg, w = VFloat (S754_zero sg)) ∨ w = VStr "").
  { intros w Hw. split; [done | intros H; destruct (Hw H)]. }
  destruct v as [|[]|z|f|s|r|r|f|n]; unfold is_truthy; simpl.
  - split; auto.
  - apply Hno. intros [?|[?|[?|[[? ?]|?]]]]; done.
  - split; auto.
  - rewrite equals_zero_int. case_bool_decide as Hz.
    + subst. split; auto.
    + apply Hno. intros [?|[?|[?|[[? ?]|?]]]]; try done. congruence.
  - rewrite equals_zero_float. destruct f as [sg|sg| |sg m e]; simpl.
    + split; eauto 6.
    + apply Hno. intros [?|[?|[?|[[? ?]|?]]]]; done.
    + apply Hno. intros [?|[?|[?|[[? ?]|?]]]]; done.
    + apply Hno. intros [?|[?|[?|[[? ?]|?]]]]; done.
  - destruct s; simpl.
    + split; auto 6.
    + apply Hno. intros [?|[?|[?|[[? ?]|?]]]]; done.
  - apply Hno. intros [?|[?|[?|[[? ?]|?]]]]; done.
  - apply Hno. intros [?|[?|[?|[[? ?]|?]]]]; done.
  - apply Hno. intros [?|[?|[?|[[? ?]|?]]]]; done.
  - apply Hno. intros [?|[?|[?|[[? ?]|?]]]]; done.
Qed.

(** ** Binary operators *)

(** C6: [and] and [or] do not short-circuit.  Whatever the operand
    expressions are, [visit_bin_op] evaluates the left one, then the right
    one (with all their effects, and failing if either fails), and only then
    combines the truthiness of the two values into a Boolean. *)
Theorem logical_operators_are_eager (steps d : nat) (l r : AST) (operator : Token)
    (Hop : tok_type operator = AND ∨ tok_type operator = OR) :
  evaluate steps (S d) (Some (ast_1.BinOp l operator r)) =
    (let* lv := evaluate steps d (Some l) in
     let* rv := evaluate steps d (Some r) in
     ret (VBool (if bool_decide (tok_type operator = AND)
                 then is_truthy lv && is_truthy rv
                 else is_truthy lv || is_truthy rv))).
Proof.
  simpl. unfold visit_bin_op, binary_operation.
  destruct Hop as [-> | ->]; reflexivity.
Qed.

(** Evaluating [false and print "x"] prints: the right operand is not
    skipped. *)
Lemma logical_operators_are_eager_witness :
  (tok_type (op AND "and") = AND ∨ tok_type (op AND "and") = OR)
  ∧ evaluate 1 3 (Some (ast_1.BinOp (ast_1.Boolean false) (op AND "and")
                          (ast_1.Print (ast_1.String "x")))) Evaluator_init
    = (Ok (VBool false), with_stdout (λ _, ["x"]) Evaluator_init).
Proof.
  split; [by left|].
  rewrite (logical_operators_are_eager 1 2 (ast_1.Boolean false)
             (ast_1.Print (ast_1.String "x")) (op AND "and") (or_introl eq_refl)).
  reflexivity.
Defined.











Ltac operator_cases H :=
  repeat (apply elem_of_cons in H as [H|H]); [..|by apply elem_of_nil in H].


Lemma float_op_mixed (f : spec_float → spec_float → Outcome Value) (l r : Value)
    (na nb : Number) :
  is_Integer_or_Float l → is_Integer_or_Float r →
  as_number l = Some na → as_number r = Some nb →
  float_op f na nb
  = if converts l && converts r then f (as_float l) (as_float r)
    else Raise (HostError OverflowError).
Proof.
  intros Hl Hr Hna Hnb. unfold float_op.
  destruct l as [| |x|f1| | | | |]; try done; destruct r as [| |y|g| | | | |]; try done;
    simpl in *; injection Hna as <-; injection Hnb as <-; simpl;
    repeat match goal with |- context [Float64.is_finite ?q] =>
             destruct (Float64.is_finite q) end; done.
Qed.

Lemma as_float_nonzero (r : Value) :
  is_Integer_or_Float r → equals_zero r = false → Float64.is_zero (as_float r) = false.
Proof.
  destruct r as [| |y|g| | | | |]; try done; intros _ H; simpl.
  - rewrite equals_zero_int in H. case_bool_decide; [done|]. by apply of_Z_nonzero.
  - by rewrite equals_zero_float in H.
Qed.

(** What [-], [*], [/] and [%] return on Integer and Float operands, the
    divisor of [/] and [%] not being zero. *)
Lemma arithmetic_result (depth : nat) (operator : Token) (l r : Value) (s : Evaluator) :
  is_Integer_or_Float l → is_Integer_or_Float r →
  (tok_type operator = MINUS →
     binary_operation depth operator l r s
     = (match l, r with
        | VInt x, VInt y => Ok (VInt (x - y))
        | _, _ => if converts l && converts r
                  then Ok (VFloat (Float64.sub (as_float l) (as_float r)))
                  else Raise (HostError OverflowError)
        end, s))
  ∧ (tok_type operator = MULTIPLY →
       binary_operation depth operator l r s
       = (match l, r with
          | VInt x, VInt y => Ok (VInt (x * y))
          | _, _ => if converts l && converts r
                    then Ok (VFloat (Float64.mul (as_float l) (as_float r)))
                    else Raise (HostError OverflowError)
          end, s))
  ∧ (tok_type operator = DIVIDE → equals_zero r = false →
       binary_operation depth operator l r s
       = (if overflows DIVIDE l r then Raise (HostError OverflowError)
          else Ok (quotient l r), s))
  ∧ (tok_type operator = REM → equals_zero r = false →
       binary_operation depth operator l r s
       = (if overflows REM l r then Raise (HostError OverflowError)
          else Ok (remainder l r), s)).
Proof.
  intros Hl Hr.
  assert (Hnum : ∃ na nb, as_number l = Some na ∧ as_number r = Some nb).
  { destruct l; try done; destruct r; try done; simpl; eauto. }
  destruct Hnum as (na & nb & Hna & Hnb).
  unfold binary_operation, check_number_operands.
  split; [|split; [|split]].
  - intros ->. rewrite Hna, Hnb. cbn [bind ret]. unfold bind, ret, lift.
    destruct l as [| |x|f| | | | |]; try done; destruct r as [| |y|g| | | | |]; try done;
      simpl in Hna, Hnb; injection Hna as <-; injection Hnb as <-; try done;
      cbn [py_sub];
      match goal with
      | |- context [float_op _ ?a ?b] =>
          match goal with
          | Hl' : is_Integer_or_Float ?l', Hr' : is_Integer_or_Float ?r' |- _ =>
              by rewrite (float_op_mixed _ l' r' a b Hl' Hr' eq_refl eq_refl)
          end
      end.
  - intros ->. rewrite Hna, Hnb. unfold bind, ret, lift.
    destruct l as [| |x|f| | | | |]; try done; destruct r as [| |y|g| | | | |]; try done;
      simpl in Hna, Hnb; injection Hna as <-; injection Hnb as <-; try done;
      cbn [py_mul];
      match goal with
      | |- context [float_op _ ?a ?b] =>
          match goal with
          | Hl' : is_Integer_or_Float ?l', Hr' : is_Integer_or_Float ?r' |- _ =>
              by rewrite (float_op_mixed _ l' r' a b Hl' Hr' eq_refl eq_refl)
          end
      end.
  - intros -> Hz. rewrite Hna, Hnb. unfold bind, ret, lift. rewrite Hz.
    pose proof (as_float_nonzero r Hr Hz) as Hnz.
    destruct l as [| |x|f| | | | |]; try done; destruct r as [| |y|g| | | | |]; try done;
      simpl in Hna, Hnb; injection Hna as <-; injection Hnb as <-; cbn [py_truediv].
    + rewrite equals_zero_int in Hz. case_bool_decide; [done|].
      destruct (Z.eqb_spec y 0); [done|]. cbn [overflows quotient].
      by destruct (Float64.is_finite _).
    + rewrite (float_op_mixed _ (VInt x) (VFloat g) _ _ I I eq_refl eq_refl).
      cbn [overflows quotient]. rewrite Hnz. by destruct (converts _ && converts _).
    + rewrite (float_op_mixed _ (VFloat f) (VInt y) _ _ I I eq_refl eq_refl).
      cbn [overflows quotient]. rewrite Hnz. by destruct (converts _ && converts _).
    + rewrite (float_op_mixed _ (VFloat f) (VFloat g) _ _ I I eq_refl eq_refl).
      cbn [overflows quotient]. rewrite Hnz. by destruct (converts _ && converts _).
  - intros -> Hz. rewrite Hna, Hnb. unfold bind, ret, lift. rewrite Hz.
    pose proof (as_float_nonzero r Hr Hz) as Hnz.
    destruct l as [| |x|f| | | | |]; try done; destruct r as [| |y|g| | | | |]; try done;
      simpl in Hna, Hnb; injection Hna as <-; injection Hnb as <-; cbn [py_mod].
    + rewrite equals_zero_int in Hz. case_bool_decide; [done|].
      destruct (Z.eqb_spec y 0); [done|]. done.
    + rewrite (float_op_mixed _ (VInt x) (VFloat g) _ _ I I eq_refl eq_refl).
      cbn [overflows remainder]. rewrite Hnz. by destruct (converts _ && converts _).
    + rewrite (float_op_mixed _ (VFloat f) (VInt y) _ _ I I eq_refl eq_refl).
      cbn [overflows remainder]. rewrite Hnz. by destruct (converts _ && converts _).
    + rewrite (float_op_mixed _ (VFloat f) (VFloat g) _ _ I I eq_refl eq_refl).
      cbn [overflows remainder]. rewrite Hnz. by destruct (converts _ && converts _).
Qed.



(** The counterexample to C4 as stated: Integer operands, a divisor that is
    not zero, and the division does not succeed, because the quotient has no
    Float; likewise a remainder whose Integer operand has no Float. *)
Lemma nonzero_divisor_can_fail :
  equals_zero (VInt 1) = false
  ∧ binary_operation 0 (op DIVIDE "/") (VInt (10 ^ 400)) (VInt 1) Evaluator_init
    = (Raise (HostError OverflowError), Evaluator_init)
  ∧ equals_zero (VFloat three_halves) = false
  ∧ binary_operation 0 (op REM "%") (VInt (10 ^ 400)) (VFloat three_halves) Evaluator_init
    = (Raise (HostError OverflowError), Evaluator_init).
Proof. repeat split. Qed.

Lemma equals_zero_iff (b : Value) :
  is_Integer_or_Float b →
  equals_zero b = true ↔ b = VInt 0 ∨ ∃ sg, b = VFloat (S754_zero sg).
Proof.
  destruct b as [| |y|g| | | | |]; try done; intros _.
  - rewrite equals_zero_int. case_bool_decide; subst.
    + split; auto.
    + split; [done|]. intros [?|[? ?]]; congruence.
  - rewrite equals_zero_float. destruct g; simpl.
    + split; eauto.
    + split; [done|]. intros [?|[? ?]]; congruence.
    + split; [done|]. intros [?|[? ?]]; congruence.
    + split; [done|]. intros [?|[? ?]]; congruence.
Qed.

(** C4, amended.  For Integer or Float operands [a], [b]: the divisor counts
    as zero exactly when it is Integer 0 or a Float zero (0.0 or -0.0); then
    [a / b] fails with "Division by zero" and [a % b] with "Remainder by
    zero".  With any other divisor both operations succeed and return the
    standard result, unless the host's arithmetic overflows.  On two
    Integers [a % b] is the Integer remainder of the floored division (it
    has the sign of [b]) and never overflows, and [a / b] is the Float
    nearest to the exact quotient, or the host's overflow error when that
    quotient is beyond the Floats.  On two Floats [a / b] is the IEEE
    quotient and [a % b] the remainder with the sign of [b], and neither
    overflows.  On an Integer with a Float the Integer is first rounded to
    the nearest Float, and the operation fails with the host's overflow
    error exactly when the Integer is too large for that. *)
Theorem zero_divisor_is_an_error (depth : nat) (operator : Token) (a b : Value)
    (s : Evaluator) (Ha : is_Integer_or_Float a) (Hb : is_Integer_or_Float b) :
  (equals_zero b = true ↔ b = VInt 0 ∨ ∃ sg, b = VFloat (S754_zero sg))
  ∧ (equals_zero b = true →
       (tok_type operator = DIVIDE →
          binary_operation depth operator a b s
          = (Raise (FluxRuntimeError operator "Division by zero"), s))
       ∧ (tok_type operator = REM →
            binary_operation depth operator a b s
            = (Raise (FluxRuntimeError operator "Remainder by zero"), s)))
  ∧ (equals_zero b = false →
       (tok_type operator = DIVIDE →
          binary_operation depth operator a b s
          = (if overflows DIVIDE a b then Raise (HostError OverflowError)
             else Ok (quotient a b), s))
       ∧ (tok_type operator = REM →
            binary_operation depth operator a b s
            = (if overflows REM a b then Raise (HostError OverflowError)
               else Ok (remainder a b), s)))
  ∧ (∀ x y, a = VInt x → b = VInt y → y ≠ 0%Z →
       overflows REM a b = false
       ∧ ∃ q r, remainder a b = VInt r ∧ x = (y * q + r)%Z
                ∧ (0 ≤ r < y ∨ y < r ≤ 0)%Z)
  ∧ (∀ f g, a = VFloat f → b = VFloat g →
       overflows DIVIDE a b = false ∧ overflows REM a b = false
       ∧ quotient a b = VFloat (Float64.div f g)
       ∧ remainder a b = VFloat (Float64.rem f g)).
Proof.
  split; [by apply equals_zero_iff|].
  destruct (arithmetic_result depth operator a b s Ha Hb) as (_ & _ & Hdiv & Hrem).
  assert (Hnum : ∃ na nb, as_number a = Some na ∧ as_number b = Some nb).
  { destruct a; try done; destruct b; try done; simpl; eauto. }
  destruct Hnum as (na & nb & Hna & Hnb).
  split; [|split; [|split]].
  - intros Hz. unfold binary_operation, check_number_operands.
    split; intros ->; rewrite Hna, Hnb; cbn; by rewrite Hz.
  - intros Hz. split; intros Ht; [by apply Hdiv | by apply Hrem].
  - intros x y -> -> Hy. split; [done|].
    exists (x `div` y)%Z, (x `mod` y)%Z. split; [done|].
    split; [by apply Z.div_mod|].
    destruct (Z.lt_trichotomy y 0) as [Hneg|[->|Hpos]]; [|done|].
    + right. pose proof (Z.mod_neg_bound x y Hneg). lia.
    + left. by apply Z.mod_pos_bound.
  - by intros f g -> ->.
Qed.

Lemma zero_divisor_is_an_error_witness :
  is_Integer_or_Float (VInt 7) ∧ is_Integer_or_Float (VFloat (S754_zero true))
  ∧ binary_operation 0 (op DIVIDE "/") (VInt 7) (VFloat (S754_zero true)) Evaluator_init
    = (Raise (FluxRuntimeError (op DIVIDE "/") "Division by zero"), Evaluator_init).
Proof.
  split; [exact I|]. split; [exact I|].
  exact (proj1 (proj1 (proj2
    (zero_divisor_is_an_error 0 (op DIVIDE "/") (VInt 7) (VFloat (S754_zero true))
       Evaluator_init I I)) eq_refl) eq_refl).
Defined.

(** [7 / 2] is the Float 3.5 and [-7 % 2] the Integer 1. *)
Example seven_halves :
  binary_operation 0 (op DIVIDE "/") (VInt 7) (VInt 2) Evaluator_init
  = (Ok (VFloat (S754_finite false 7881299347898368 (-51))), Evaluator_init)
  ∧ binary_operation 0 (op REM "%") (VInt (-7)) (VInt 2) Evaluator_init
    = (Ok (VInt 1), Evaluator_init).
Proof. split; reflexivity. Qed.

(** The counterexample to C10 as stated: [1 / 3] is a Float, but not the
    exact quotient: three times its value is not one. *)
Lemma one_third_is_rounded :
  ∃ f, binary_operation 0 (op DIVIDE "/") (VInt 1) (VInt 3) Evaluator_init
       = (Ok (VFloat f), Evaluator_init)
       ∧ ¬ exact_quotient f 1 3.
Proof. eexists. split; [reflexivity|]. by vm_compute. Qed.

(** C10, amended.  [/] on two Integers with a non-zero divisor is true
    division: the result is never an Integer.  It is the Float nearest to the
    quotient (the exact division of the two Integers, rounded once), and a
    quotient beyond the Floats is the host's overflow error.  So [4 / 2] is
    the Float 2.0, which stringifies as "2", while [1 / 3] is only the Float
    nearest to one third. *)
Theorem integer_division_is_true_division (depth : nat) (operator : Token) (x y : Z)
    (s : Evaluator) (Hop : tok_type operator = DIVIDE) (Hy : y ≠ 0%Z) :
  let q := Float64.div (Float64.exact_of_Z x) (Float64.exact_of_Z y) in
  binary_operation depth operator (VInt x) (VInt y) s
  = (if Float64.is_finite q then Ok (VFloat q) else Raise (HostError OverflowError), s)
  ∧ ∀ z, (binary_operation depth operator (VInt x) (VInt y) s).1 ≠ Ok (VInt z).
Proof.
  intros q.
  assert (E : binary_operation depth operator (VInt x) (VInt y) s
              = (if Float64.is_finite q then Ok (VFloat q)
                 else Raise (HostError OverflowError), s)).
  { unfold binary_operation. rewrite Hop. cbn -[equals_zero Float64.div].
    rewrite equals_zero_int. case_bool_decide; [done|].
    cbn -[Float64.div]. destruct (Z.eqb_spec y 0); [done|]. reflexivity. }
  split; [exact E|]. intros z. rewrite E. simpl. by destruct (Float64.is_finite q).
Qed.

Lemma integer_division_is_true_division_witness :
  tok_type (op DIVIDE "/") = DIVIDE ∧ 2%Z ≠ 0%Z
  ∧ binary_operation 0 (op DIVIDE "/") (VInt 4) (VInt 2) Evaluator_init
    = (Ok (VFloat (Float64.of_Z 2)), Evaluator_init)
  ∧ stringify (VFloat (Float64.of_Z 2)) Evaluator_init = (Ok "2", Evaluator_init).
Proof.
  assert (H2 : 2%Z ≠ 0%Z) by lia.
  split; [reflexivity|]. split; [exact H2|]. split; [|reflexivity].
  exact (proj1 (integer_division_is_true_division 0 (op DIVIDE "/") 4 2 Evaluator_init
                  eq_refl H2)).
Defined.

(** ** Equality *)









(** ** match *)

Lemma match_loop_miss (depth : nat) (ev : option AST → M Value) (value : Value)
    (pre rest : list AST) (s0 s1 : Evaluator) :
  cases_miss ev depth value pre s0 s1 →
  match_loop depth ev value (pre ++ rest) s0 = match_loop depth ev value rest s1.
Proof.
  induction 1 as [|pattern body pre s pv s1 s2 Hp Hne _ IH]; [done|].
  cbn [app match_loop]. rewrite (bind_ok _ _ _ _ _ Hp).
  unfold bind at 1, gets. unfold bind at 1, lift. rewrite Hne. exact IH.
Qed.

(** C9: [match] evaluates its scrutinee once, then the patterns in source
    order, comparing each with the scrutinee by [==].  At the first equal
    pattern the value and effects are those of that case's body: the later
    cases ([post]) play no part.  If every pattern is evaluated and none is
    equal, the evaluation fails with the runtime error "No matching case
    found". *)
Theorem match_takes_first_equal_case (steps d : nat) (expression : AST) (value : Value)
    (s s0 : Evaluator)
    (Hscrutinee : evaluate steps d (Some expression) s = (Ok value, s0)) :
  (∀ pre pattern body post s1 pv s2,
     cases_miss (evaluate steps d) d value pre s0 s1 →
     evaluate steps d (Some pattern) s1 = (Ok pv, s2) →
     py_eq d (objects s2) value pv = Ok true →
     evaluate steps (S d)
       (Some (ast_1.Match expression (pre ++ ast_1.MatchCase pattern body :: post))) s
     = evaluate steps d (Some body) s2)
  ∧ (∀ cases s1,
       cases_miss (evaluate steps d) d value cases s0 s1 →
       evaluate steps (S d) (Some (ast_1.Match expression cases)) s
       = (Raise no_matching_case, s1)).
Proof.
  split.
  - intros pre pattern body post s1 pv s2 Hmiss Hp Heq.
    cbn [evaluate accept]. unfold visit_match.
    rewrite (bind_ok _ _ _ _ _ Hscrutinee), (match_loop_miss _ _ _ _ _ _ _ Hmiss).
    cbn [match_loop]. rewrite (bind_ok _ _ _ _ _ Hp).
    unfold bind at 1, gets. unfold bind at 1, lift. by rewrite Heq.
  - intros cases s1 Hmiss.
    cbn [evaluate accept]. unfold visit_match.
    rewrite (bind_ok _ _ _ _ _ Hscrutinee).
    rewrite <- (app_nil_r cases), (match_loop_miss _ _ _ _ _ _ _ Hmiss). reflexivity.
Qed.

Lemma match_takes_first_equal_case_witness :
  evaluate 1 3 (Some (match_a_b 2)) Evaluator_init = (Ok (VStr "b"), Evaluator_init)
  ∧ evaluate 1 3 (Some (match_a_b 3)) Evaluator_init
    = (Raise no_matching_case, Evaluator_init).
Proof.
  split.
  - apply (proj1 (match_takes_first_equal_case 1 2 (ast_1.Integer 2) (VInt 2)
                    Evaluator_init Evaluator_init eq_refl)
             [ast_1.MatchCase (ast_1.Integer 1) (ast_1.String "a")]
             (ast_1.Integer 2) (ast_1.String "b") [] Evaluator_init (VInt 2) Evaluator_init).
    + apply (miss_cons _ _ _ _ _ _ _ (VInt 1) Evaluator_init);
        [reflexivity | reflexivity | apply miss_nil].
    + reflexivity.
    + reflexivity.
  - apply (proj2 (match_takes_first_equal_case 1 2 (ast_1.Integer 3) (VInt 3)
                    Evaluator_init Evaluator_init eq_refl)).
    apply (miss_cons _ _ _ _ _ _ _ (VInt 1) Evaluator_init);
      [reflexivity | reflexivity |].
    apply (miss_cons _ _ _ _ _ _ _ (VInt 2) Evaluator_init);
      [reflexivity | reflexivity | apply miss_nil].
Defined.

(** ** Blocks and shadowing *)

Lemma find_binding_frame (es es' : list Environment) (fuel fuel' self : nat)
    (name : string) (r : nat * Value) :
  find_binding es fuel self name = Some r →
  (∀ i, i < length es → es' !! i = es !! i) →
  fuel ≤ fuel' →
  find_binding es' fuel' self name = Some r.
Proof.
  revert fuel' self. induction fuel as [|fuel IH]; intros fuel' self H Hagree Hle;
    simpl in H; [done|].
  destruct fuel' as [|fuel']; [lia|]. simpl.
  destruct (es !! self) as [e|] eqn:E; [|done].
  rewrite Hagree, E by (by eapply lookup_lt_Some).
  destruct (variables e !! name); [done|].
  destruct (parent e); [|done]. apply IH; [done|done|lia].
Qed.



(** * Further properties of the code *)

(** ** class Environment *)

Lemma find_binding_owner (es : list Environment) (fuel self : nat) (name : string)
    (owner : nat) (value : Value) :
  find_binding es fuel self name = Some (owner, value) →
  ∃ r, es !! owner = Some r ∧ variables r !! name = Some value.
Proof.
  revert self. induction fuel as [|fuel IH]; intros self H; simpl in H; [done|].
  destruct (es !! self) as [r|] eqn:E; [|done].
  destruct (variables r !! name) as [v|] eqn:Ev.
  - injection H as <- <-. eauto.
  - destruct (parent r) as [p|]; [|done]. by eapply IH.
Qed.

Lemma find_binding_update (es : list Environment) (fuel self : nat) (name : string)
    (owner : nat) (old value : Value) :
  find_binding es fuel self name = Some (owner, old) →
  find_binding (alter (set_variable name value) owner es) fuel self name
  = Some (owner, value).
Proof.
  revert self. induction fuel as [|fuel IH]; intros self H; simpl in H; [done|].
  simpl. destruct (es !! self) as [r|] eqn:E; [|done].
  destruct (variables r !! name) as [v|] eqn:Ev.
  - injection H as <- <-.
    rewrite list_lookup_alter, decide_True, E by done. simpl.
    by rewrite lookup_insert_eq.
  - destruct (parent r) as [p|] eqn:Ep; [|done].
    destruct (find_binding_owner _ _ _ _ _ _ H) as (r' & Hr' & Hv').
    assert (owner ≠ self) by (intros ->; congruence).
    rewrite list_lookup_alter_ne, E, Ev, Ep by done. by apply IH.
Qed.

Lemma find_binding_other_name (es : list Environment) (fuel self changed : nat)
    (name name' : string) (value : Value) :
  name ≠ name' →
  find_binding (alter (set_variable name value) changed es) fuel self name'
  = find_binding es fuel self name'.
Proof.
  intros Hne. revert self. induction fuel as [|fuel IH]; intros self; [done|].
  simpl. rewrite list_lookup_alter.
  destruct (decide (changed = self)) as [->|].
  - destruct (es !! self) as [r|]; [|done]. simpl.
    rewrite lookup_insert_ne by done.
    destruct (variables r !! name'); [done|]. by destruct (parent r).
  - destruct (es !! self) as [r|]; [|done].
    destruct (variables r !! name'); [done|]. by destruct (parent r).
Qed.

Lemma find_binding_defined (es : list Environment) (fuel self : nat) (name : string)
    (value : Value) :
  self < length es →
  find_binding (alter (set_variable name value) self es) (S fuel) self name
  = Some (self, value).
Proof.
  intros Hlt. destruct (lookup_lt_is_Some_2 es self Hlt) as [r Hr].
  simpl. rewrite list_lookup_alter, decide_True, Hr by done. simpl.
  by rewrite lookup_insert_eq.
Qed.

(** X1: [define] then [get].  After [define(name, value)] on an environment,
    [get(name)] from that environment yields [value], whatever the name was
    bound to before, here or in an enclosing scope; no other name resolves
    differently from any environment, and nothing but the arena of
    environments changes. *)
Theorem define_then_get (s : Evaluator) (self : nat) (name : string) (value : Value)
    (token : Token) (Hself : self < length (envs s)) :
  ∃ s',
    Environment_define self name value s = (Ok tt, s')
    ∧ Environment_get self name token s' = (Ok value, s')
    ∧ (∀ name' e, name ≠ name' →
         find_binding (envs s') (length (envs s')) e name'
         = find_binding (envs s) (length (envs s)) e name')
    ∧ s' = with_envs (λ _, envs s') s.
Proof.
  exists (with_envs (alter (set_variable name value) self) s).
  split; [done|]. split; [|split; [|done]].
  - unfold Environment_get, bind, gets. cbn [envs with_envs].
    rewrite length_alter. destruct (length (envs s)) as [|n] eqn:En; [lia|].
    rewrite find_binding_defined by lia. done.
  - intros name' e Hne. cbn [envs with_envs]. rewrite length_alter.
    by apply find_binding_other_name.
Qed.

Lemma define_then_get_witness :
  ∃ s',
    Environment_define 1 "x" (VInt 5) two_scopes = (Ok tt, s')
    ∧ Environment_get 1 "x" (op (OTHER "IDENTIFIER") "x") s' = (Ok (VInt 5), s')
    ∧ (∀ name' e, "x" ≠ name' →
         find_binding (envs s') (length (envs s')) e name'
         = find_binding (envs two_scopes) (length (envs two_scopes)) e name')
    ∧ s' = with_envs (λ _, envs s') two_scopes.
Proof.
  apply (define_then_get two_scopes 1 "x" (VInt 5) (op (OTHER "IDENTIFIER") "x")).
  cbn. lia.
Defined.

(** X2: [assign] reaches the nearest binding.  If the name resolves from
    [self] (in its own mapping or in an enclosing scope), [assign] succeeds and
    returns the value; it rebinds the name in the environment that owned the
    binding and creates no environment, so that afterwards the name resolves
    to the new value both from [self] and from the owner, and every other name
    resolves as before. *)
Theorem assign_updates_nearest_binding (s : Evaluator) (self owner : nat)
    (name : string) (old value : Value) (token : Token)
    (Hbound : find_binding (envs s) (length (envs s)) self name = Some (owner, old)) :
  ∃ s',
    Environment_assign self name value token s = (Ok value, s')
    ∧ envs s' = alter (set_variable name value) owner (envs s)
    ∧ Environment_get self name token s' = (Ok value, s')
    ∧ Environment_get owner name token s' = (Ok value, s')
    ∧ (∀ name' e, name ≠ name' →
         find_binding (envs s') (length (envs s')) e name'
         = find_binding (envs s) (length (envs s)) e name').
Proof.
  exists (with_envs (alter (set_variable name value) owner) s).
  destruct (find_binding_owner _ _ _ _ _ _ Hbound) as (r & Hr & _).
  pose proof (lookup_lt_Some _ _ _ Hr) as Hlt.
  split; [|split; [done|split; [|split]]].
  - unfold Environment_assign, bind, gets. by rewrite Hbound.
  - unfold Environment_get, bind, gets. cbn [envs with_envs].
    rewrite length_alter. by rewrite (find_binding_update _ _ _ _ _ old).
  - unfold Environment_get, bind, gets. cbn [envs with_envs].
    rewrite length_alter. destruct (length (envs s)) as [|n] eqn:En; [lia|].
    rewrite find_binding_defined by lia. done.
  - intros name' e Hne. cbn [envs with_envs]. rewrite length_alter.
    by apply find_binding_other_name.
Qed.

Lemma assign_updates_nearest_binding_witness :
  ∃ s',
    Environment_assign 1 "x" (VInt 7) (op (OTHER "IDENTIFIER") "x") two_scopes
    = (Ok (VInt 7), s')
    ∧ envs s' = alter (set_variable "x" (VInt 7)) 0 (envs two_scopes)
    ∧ Environment_get 1 "x" (op (OTHER "IDENTIFIER") "x") s' = (Ok (VInt 7), s')
    ∧ Environment_get 0 "x" (op (OTHER "IDENTIFIER") "x") s' = (Ok (VInt 7), s')
    ∧ (∀ name' e, "x" ≠ name' →
         find_binding (envs s') (length (envs s')) e name'
         = find_binding (envs two_scopes) (length (envs two_scopes)) e name').
Proof.
  apply (assign_updates_nearest_binding two_scopes 1 0 "x" (VInt 1) (VInt 7)
           (op (OTHER "IDENTIFIER") "x")).
  reflexivity.
Defined.

(** X3: [assign] never creates a binding.  [assign] succeeds exactly when
    [get] does.  Otherwise the name is bound nowhere on the chain: [get] fails
    with "Undefined variable", [assign] with "Cannot reassign undefined
    variable", and both leave the evaluator as it was. *)
Theorem assign_needs_a_binding (s : Evaluator) (self : nat) (name : string)
    (value : Value) (token : Token) :
  ((∃ s', Environment_assign self name value token s = (Ok value, s'))
   ↔ (∃ v, Environment_get self name token s = (Ok v, s)))
  ∧ ((∃ v, Environment_get self name token s = (Ok v, s))
     ∨ (Environment_get self name token s = (Raise (undefined_variable token name), s)
        ∧ Environment_assign self name value token s
          = (Raise (cannot_reassign token name), s))).
Proof.
  unfold Environment_assign, Environment_get, bind, gets.
  destruct (find_binding (envs s) (length (envs s)) self name) as [[o v]|] eqn:E.
  - split; [|by eauto]. split; intros _; eauto.
  - split; [|by right]. split; intros [? H]; done.
Qed.

Lemma ancestor_walk_add (es : list Environment) (a b self : nat) :
  ancestor_walk es (a + b) self = ancestor_walk es b (ancestor_walk es a self).
Proof.
  revert self. induction a as [|a IH]; intros self; [done|].
  simpl. destruct (es !! self) as [r|] eqn:E.
  - destruct (parent r) as [p|] eqn:Ep; [apply IH|].
    destruct b; simpl; [done|]. by rewrite E, Ep.
  - destruct b; simpl; [done|]. by rewrite E.
Qed.

Lemma ancestor_walk_valid (es : list Environment) (n self : nat) :
  parents_valid es → self < length es → ancestor_walk es n self < length es.
Proof.
  intros Hwf. revert self. induction n as [|n IH]; intros self Hself; [done|].
  simpl. destruct (es !! self) as [r|] eqn:E; [|done].
  destruct (parent r) as [p|] eqn:Ep; [|done]. apply IH. by eapply Hwf.
Qed.

Lemma ancestor_walk_alter (es : list Environment) (f : string * Value) (n self k : nat) :
  ancestor_walk (alter (set_variable f.1 f.2) k es) n self = ancestor_walk es n self.
Proof.
  revert self. induction n as [|n IH]; intros self; [done|].
  simpl. rewrite list_lookup_alter.
  destruct (decide (k = self)) as [->|]; destruct (es !! self) as [r|]; simpl; try done.
  - destruct (parent r); [apply IH | done].
  - destruct (parent r); [apply IH | done].
Qed.

(** X4: [ancestor] composes.  Walking [a] scopes up and then [b] more is
    walking [a + b] up at once, including when the walk stops early at the
    outermost scope; a distance that is zero or negative is the environment
    itself. *)
Theorem ancestor_composes (s : Evaluator) (self : nat) (a b : Z)
    (Ha : (0 ≤ a)%Z) (Hb : (0 ≤ b)%Z) :
  Environment_ancestor self (a + b) s
  = (let* m := Environment_ancestor self a in Environment_ancestor m b) s
  ∧ ∀ z, (z ≤ 0)%Z → Environment_ancestor self z s = (Ok self, s).
Proof.
  split.
  - unfold Environment_ancestor, bind, gets, ret.
    by rewrite Z2Nat.inj_add, ancestor_walk_add by done.
  - intros z Hz. unfold Environment_ancestor, bind, gets, ret.
    by replace (Z.to_nat z) with 0 by lia.
Qed.

Lemma ancestor_composes_witness :
  Environment_ancestor 1 (1 + 1) two_scopes
  = (let* m := Environment_ancestor 1 1 in Environment_ancestor m 1) two_scopes
  ∧ ∀ z, (z ≤ 0)%Z → Environment_ancestor 1 z two_scopes = (Ok 1, two_scopes).
Proof.
  apply (ancestor_composes two_scopes 1 1 1); lia.
Defined.

(** X5: [assign_at] then [get_at].  In an arena whose parents all exist,
    [assign_at(distance, name, value)] binds the name in the ancestor at that
    distance (the outermost scope when the chain is shorter) and returns the
    value; [get_at] with the same distance and name then yields the value,
    and [ancestor] still yields the same environment. *)
Theorem assign_at_then_get_at (s : Evaluator) (self : nat) (distance : Z)
    (name : string) (value : Value)
    (Hwf : parents_valid (envs s)) (Hself : self < length (envs s)) :
  ∃ s' target,
    Environment_ancestor self distance s = (Ok target, s)
    ∧ Environment_assign_at self distance name value s = (Ok value, s')
    ∧ envs s' = alter (set_variable name value) target (envs s)
    ∧ Environment_ancestor self distance s' = (Ok target, s')
    ∧ Environment_get_at self distance name s' = (Ok value, s').
Proof.
  set (target := ancestor_walk (envs s) (Z.to_nat distance) self).
  exists (with_envs (alter (set_variable name value) target) s), target.
  assert (Htarget : target < length (envs s)) by by apply ancestor_walk_valid.
  destruct (lookup_lt_is_Some_2 _ _ Htarget) as [r Hr].
  assert (Hsame : ancestor_walk (alter (set_variable name value) target (envs s))
                    (Z.to_nat distance) self = target).
  { apply (ancestor_walk_alter (envs s) (name, value)). }
  repeat split.
  - unfold Environment_ancestor, bind, gets, ret. cbn [envs with_envs]. by rewrite Hsame.
  - unfold Environment_get_at, Environment_ancestor, bind, gets, ret.
    cbn [envs with_envs]. rewrite Hsame.
    rewrite list_lookup_alter, decide_True, Hr by done. simpl.
    by rewrite lookup_insert_eq.
Qed.

Lemma assign_at_then_get_at_witness :
  ∃ s' target,
    Environment_ancestor 1 5 two_scopes = (Ok target, two_scopes)
    ∧ Environment_assign_at 1 5 "x" (VInt 9) two_scopes = (Ok (VInt 9), s')
    ∧ envs s' = alter (set_variable "x" (VInt 9)) target (envs two_scopes)
    ∧ Environment_ancestor 1 5 s' = (Ok target, s')
    ∧ Environment_get_at 1 5 "x" s' = (Ok (VInt 9), s').
Proof.
  apply (assign_at_then_get_at two_scopes 1 5 "x" (VInt 9)).
  - intros [|[|i]] r p Hr Hp; cbn in Hr; simplify_eq; cbn in *; simplify_eq; lia.
  - cbn. lia.
Defined.

(** ** Evaluator.builtin_len through BuiltinFunction.call *)

Example code_points_accent : code_points "héllo" = 5 ∧ String.length "héllo" = 6.
Proof. split; reflexivity. Qed.

Lemma code_points_le (text : string) : code_points text ≤ String.length text.
Proof.
  induction text as [|a text IH]; cbn [code_points String.length]; [done|].
  destruct (continues_character a); lia.
Qed.

Lemma code_points_ascii (text : string) :
  Forall (λ a, (Ascii.N_of_ascii a < 128)%N) (String.list_ascii_of_string text) →
  code_points text = String.length text.
Proof.
  induction text as [|a text IH]; cbn [code_points String.length String.list_ascii_of_string];
    [done|].
  intros H. apply Forall_cons in H as [Ha H]. rewrite (IH H).
  unfold continues_character. destruct (N.leb_spec 128 (Ascii.N_of_ascii a)); [lia|]. done.
Qed.

(** X6: [len].  Called with exactly one argument that is a String, an Array
    or a Dict, [len] returns its number of characters or entries; it succeeds
    in no other case, and its result is never negative.  The characters of a
    String are the code points of its text, not the bytes of its encoding:
    there are as many as bytes when no byte is above 127, and never more.  Nil, a number, a
    Boolean or a function is a runtime error that names the kind, and any
    other number of arguments is an error that names that number.  In no case
    does [len] change the evaluator. *)
Theorem len_counts (steps d : nat) (arguments : list Value) (token : Token)
    (s : Evaluator) :
  (call steps (S d) (VBuiltin "len") arguments token s).2 = s
  ∧ (∀ text, arguments = [VStr text] →
       (call steps (S d) (VBuiltin "len") arguments token s).1
       = Ok (VInt (Z.of_nat (code_points text)))
       ∧ code_points text ≤ String.length text
       ∧ (Forall (λ a, (Ascii.N_of_ascii a < 128)%N) (String.list_ascii_of_string text) →
          code_points text = String.length text))
  ∧ (∀ ref items, arguments = [VList ref] → objects s !! ref = Some (OList items) →
       (call steps (S d) (VBuiltin "len") arguments token s).1
       = Ok (VInt (Z.of_nat (length items))))
  ∧ (∀ ref items, arguments = [VDict ref] → objects s !! ref = Some (ODict items) →
       (call steps (S d) (VBuiltin "len") arguments token s).1
       = Ok (VInt (Z.of_nat (length items))))
  ∧ (∀ v, (call steps (S d) (VBuiltin "len") arguments token s).1 = Ok v →
       (∃ z, v = VInt z ∧ (0 ≤ z)%Z) ∧ ∃ a, arguments = [a] ∧ has_length a)
  ∧ (arguments = [VNone] →
       (call steps (S d) (VBuiltin "len") arguments token s).1
       = Raise (FluxRuntimeError token "'len' cannot be applied to 'None'"))
  ∧ (∀ v, arguments = [v] → v ≠ VNone → ¬ has_length v →
       (call steps (S d) (VBuiltin "len") arguments token s).1
       = Raise (FluxRuntimeError token
                  ("'len' expects an array, string, or dictionary, but got "
                   +:+ type_name v)))
  ∧ (length arguments ≠ 1 →
       (call steps (S d) (VBuiltin "len") arguments token s).1
       = Raise (FluxRuntimeError token
                  ("'len' expected 1 argument, got " +:+ pretty (length arguments)))).
Proof.
  cbn [call callable_call]. unfold BuiltinFunction_call.
  change (bool_decide ("len" = "len")) with true. cbv iota.
  split; [|split; [|split; [|split; [|split; [|split; [|split]]]]]].
  - destruct arguments as [|v [|w l]]; try done.
    destruct v; try done; unfold builtin_len, bind, gets; cbn;
      by destruct (objects s !! ref) as [[]|].
  - intros text ->. split; [done|]. split.
    + apply code_points_le.
    + apply code_points_ascii.
  - intros ref items -> H. unfold builtin_len, bind, gets. cbn. by rewrite H.
  - intros ref items -> H. unfold builtin_len, bind, gets. cbn. by rewrite H.
  - intros v. destruct arguments as [|a [|w l]]; try done.
    destruct a; unfold builtin_len, bind, gets; cbn; try done.
    + intros [= <-].
      split; eexists; (split; [reflexivity | first [lia | exact I]]).
    + destruct (objects s !! ref) as [[]|]; cbn; try done; intros [= <-];
        split; eexists; (split; [reflexivity | first [lia | exact I]]).
    + destruct (objects s !! ref) as [[]|]; cbn; try done; intros [= <-];
        split; eexists; (split; [reflexivity | first [lia | exact I]]).
  - by intros ->.
  - intros v -> Hnone Hlen. destruct v; try done; by destruct Hlen.
  - intros Hlen. by destruct arguments as [|v [|w l]].
Qed.

(** ** visit_bin_op on [+], visit_unary_op *)



(** X8: unary minus.  On an operand expression whose value is an Integer or
    a Float, [-] yields its negation, and negating twice gives the value
    back; on a Boolean it yields the Integer -1 or 0; on a value of any other
    kind it fails with "Operand must be a number", after the operand's own
    effects. *)
Theorem unary_minus_negates (steps d : nat) (operator : Token) (e : AST) (v : Value)
    (s s1 : Evaluator) (Hop : tok_type operator = MINUS)
    (He : evaluate steps d (Some e) s = (Ok v, s1)) :
  (∀ z, v = VInt z →
     evaluate steps (S d) (Some (ast_1.UnaryOp operator e)) s = (Ok (VInt (- z)), s1)
     ∧ evaluate steps (S (S d))
         (Some (ast_1.UnaryOp operator (ast_1.UnaryOp operator e))) s = (Ok v, s1))
  ∧ (∀ f, v = VFloat f →
       evaluate steps (S d) (Some (ast_1.UnaryOp operator e)) s
       = (Ok (VFloat (Float64.opp f)), s1)
       ∧ evaluate steps (S (S d))
           (Some (ast_1.UnaryOp operator (ast_1.UnaryOp operator e))) s = (Ok v, s1))
  ∧ (∀ b, v = VBool b →
       evaluate steps (S d) (Some (ast_1.UnaryOp operator e)) s
       = (Ok (VInt (- Z.b2z b)), s1))
  ∧ (not_numeric_kind v →
       evaluate steps (S d) (Some (ast_1.UnaryOp operator e)) s
       = (Raise (FluxRuntimeError operator "Operand must be a number"), s1)).
Proof.
  assert (Hstep : ∀ e' w s0 s',
            evaluate steps d (Some e') s0 = (Ok w, s') →
            evaluate steps (S d) (Some (ast_1.UnaryOp operator e')) s0
            = (let* n := check_number_operand operator w in ret (py_neg n)) s').
  { intros e' w s0 s' H. cbn [evaluate accept]. unfold visit_unary_op.
    rewrite (bind_ok _ _ _ _ _ H). by rewrite Hop. }
  assert (Hstep' : ∀ e' w s0 s',
            evaluate steps (S d) (Some e') s0 = (Ok w, s') →
            evaluate steps (S (S d)) (Some (ast_1.UnaryOp operator e')) s0
            = (let* n := check_number_operand operator w in ret (py_neg n)) s').
  { intros e' w s0 s' H. cbn [evaluate accept]. unfold visit_unary_op.
    change (match ?n with Some n0 => accept steps d (evaluate steps d) (call steps d) n0
                     | None => ret VNone end) with (evaluate steps (S d) n).
    rewrite (bind_ok _ _ _ _ _ H). by rewrite Hop. }
  split; [|split; [|split]].
  - intros z ->. pose proof (Hstep _ _ _ _ He) as H1. split; [exact H1|].
    rewrite (Hstep' _ _ _ _ H1). cbn. by rewrite Z.opp_involutive.
  - intros f ->. pose proof (Hstep _ _ _ _ He) as H1. split; [exact H1|].
    rewrite (Hstep' _ _ _ _ H1). cbn. by destruct f as [[]|[]| |[] m x].
  - intros b ->. exact (Hstep _ _ _ _ He).
  - intros Hk. rewrite (Hstep _ _ _ _ He). by destruct v.
Qed.

Lemma unary_minus_negates_witness :
  evaluate 1 3 (Some (ast_1.UnaryOp (op MINUS "-")
                        (ast_1.UnaryOp (op MINUS "-") (ast_1.Integer 4)))) Evaluator_init
  = (Ok (VInt 4), Evaluator_init).
Proof.
  exact (proj2 (proj1 (unary_minus_negates 1 1 (op MINUS "-") (ast_1.Integer 4) (VInt 4)
                         Evaluator_init Evaluator_init eq_refl eq_refl) 4%Z eq_refl)).
Defined.

(** ** visit_func_call, Function.call *)

(** X9: calling what is not a function.  When the callee expression
    evaluates to anything but a Function or a BuiltinFunction, the call fails
    with "Can only call functions, got: <kind>" located at the call's token,
    and no argument expression is evaluated: the state is the one the callee
    expression left, whatever the arguments are. *)
Theorem call_of_a_non_function (steps d : nat) (callee : AST) (args : list AST)
    (token : Token) (v : Value) (s s1 : Evaluator)
    (Hcallee : evaluate steps d (Some callee) s = (Ok v, s1))
    (Hv : not_callable v) :
  evaluate steps (S d) (Some (ast_1.FuncCall callee args (Some token))) s
  = (Raise (can_only_call token v), s1).
Proof.
  cbn [evaluate accept]. unfold visit_func_call.
  rewrite (bind_ok _ _ _ _ _ Hcallee). by destruct v.
Qed.

Lemma call_of_a_non_function_witness :
  evaluate 1 2 (Some (ast_1.FuncCall (ast_1.Integer 3)
                        [ast_1.Print (ast_1.String "never printed")]
                        (Some (op (OTHER "LPAREN") "(")))) Evaluator_init
  = (Raise (can_only_call (op (OTHER "LPAREN") "(") (VInt 3)), Evaluator_init).
Proof.
  exact (call_of_a_non_function 1 1 (ast_1.Integer 3)
           [ast_1.Print (ast_1.String "never printed")] (op (OTHER "LPAREN") "(")
           (VInt 3) Evaluator_init Evaluator_init eq_refl I).
Defined.

(** X10: arity.  A call of a user function with a number of arguments other
    than its number of parameters fails with "Expected n arguments, got m"
    before anything else happens: no environment is created, the body is not
    run and the evaluator is unchanged. *)
Theorem arity_is_checked_first (steps d : nat) (f : Function) (arguments : list Value)
    (token : Token) (s : Evaluator)
    (Harity : length arguments ≠ length (fn_params f)) :
  call steps (S d) (VFunction f) arguments token s
  = (Raise (FluxRuntimeError token
              ("Expected " +:+ pretty (length (fn_params f)) +:+ " arguments, got "
               +:+ pretty (length arguments))), s).
Proof.
  cbn [call callable_call]. unfold Function_call.
  by rewrite bool_decide_true.
Qed.

Lemma arity_is_checked_first_witness :
  call 1 1 (VFunction sum_function) [VInt 1] call_token Evaluator_init
  = (Raise (FluxRuntimeError call_token "Expected 2 arguments, got 1"), Evaluator_init).
Proof.
  apply (arity_is_checked_first 1 0 sum_function [VInt 1] call_token Evaluator_init).
  cbn. lia.
Defined.

(** ** execute_block, interpret *)

(** X11: a block restores the current environment.  However the statements
    of a block end (with a value, a runtime error, a [return] or a tail-call
    request) and whatever they did to the evaluator, on leaving
    [execute_block] the current environment is the one that was current on
    entry; so it is after evaluating a Block node. *)
Theorem block_restores_environment (ev : option AST → M Value) (block : AST) (env_ : nat)
    (s s' : Evaluator) (r : Outcome Value)
    (Hrun : execute_block ev block env_ s = (r, s'))
    (Hr : ∀ why, r ≠ Abort why) :
  env s' = env s.
Proof.
  revert Hrun. unfold execute_block, bind at 1, gets.
  unfold bind at 1, modify. unfold try_finally.
  destruct ((let* statements := statements_of block in block_loop ev statements VNone)
              (with_env env_ s)) as [[v|e|why] s2]; intros [= <- <-]; try done.
  by destruct (Hr why).
Qed.

Lemma block_restores_environment_witness :
  env (execute_block (evaluate 1 2) (ast_1.Block [ast_1.VarAssign "x" (ast_1.Integer 2)])
         1 (with_envs (λ es, es ++ [mkEnvironment (Some 0) ∅]) x_is_one)).2
  = env (with_envs (λ es, es ++ [mkEnvironment (Some 0) ∅]) x_is_one).
Proof.
  refine (block_restores_environment (evaluate 1 2)
            (ast_1.Block [ast_1.VarAssign "x" (ast_1.Integer 2)]) 1
            (with_envs (λ es, es ++ [mkEnvironment (Some 0) ∅]) x_is_one)
            _ (Ok (VInt 2)) _ _).
  - reflexivity.
  - done.
Defined.

(** X12: no exception leaves [interpret].  Whatever the program, [interpret]
    does not raise.  If the program's block ends with a value, that value is
    the result and nothing is added to the output; if it ends with a runtime
    error, one line "[line N] Error at 'lexeme': message" is printed after
    what the program printed, and the result is Nil. *)
Theorem interpret_reports_errors (steps depth : nat) (tree : AST) (s : Evaluator) :
  (∀ e, (interpret steps depth tree s).1 ≠ Raise e)
  ∧ (∀ v s1,
       execute_block (evaluate steps depth) tree (global_env s) s = (Ok v, s1) →
       interpret steps depth tree s = (Ok v, s1))
  ∧ (∀ token message s1,
       execute_block (evaluate steps depth) tree (global_env s) s
       = (Raise (FluxRuntimeError token message), s1) →
       interpret steps depth tree s
       = (Ok VNone,
          with_stdout (λ out, out ++ ["[line " +:+ pretty (tok_line token)
                                      +:+ "] Error at '" +:+ tok_value token
                                      +:+ "': " +:+ message]) s1)).
Proof.
  unfold interpret, try_except, bind, gets. cbn beta.
  destruct (execute_block (evaluate steps depth) tree (global_env s) s)
    as [[v|[tk msg|f a|v|h]|why] s1]; (split; [|split]); try done.
  all: try by intros ? ? [= <- <-].
  all: by intros ? ? ? [= <- <- <-].
Qed.

(** ** visit_array_assign, visit_array_access *)

Lemma in_bounds (i : Z) (n : nat) :
  (0 ≤ i < Z.of_nat n)%Z → (i <? 0)%Z || (Z.of_nat n <=? i)%Z = false.
Proof.
  intros H. apply orb_false_iff. split; [apply Z.ltb_ge | apply Z.leb_gt]; lia.
Qed.

(** X13: an array write is visible to later reads.  Let [name] resolve to an
    Array with items [items], let [i] be an index within bounds and let the
    value expression evaluate to [v] without changing the evaluator.  Then
    [name[i] = value] succeeds with [v] and changes nothing but that array,
    in place: its item [i] becomes [v], its length and other items stay.  A
    later read [name[j]] yields [v] for [j = i] and the old item otherwise,
    and so does a read through any other variable that holds the same
    array. *)
Theorem array_write_then_read (steps d : nat) (s : Evaluator) (name : string)
    (owner ref : nat) (items : list Value) (i : Z) (value : AST) (v : Value)
    (token : Token)
    (Hname : find_binding (envs s) (length (envs s)) (env s) name
             = Some (owner, VList ref))
    (Hitems : objects s !! ref = Some (OList items))
    (Hi : (0 ≤ i < Z.of_nat (length items))%Z)
    (Hvalue : evaluate steps (S d) (Some value) s = (Ok v, s)) :
  ∃ s',
    evaluate steps (S (S d))
      (Some (ast_1.ArrayAssign (inl name) (ast_1.Integer i) value token)) s = (Ok v, s')
    ∧ objects s' = <[ref := OList (<[Z.to_nat i := v]> items)]> (objects s)
    ∧ (∀ alias o j, 
         find_binding (envs s) (length (envs s)) (env s) alias = Some (o, VList ref) →
         (0 ≤ j < Z.of_nat (length items))%Z →
         evaluate steps (S (S d))
           (Some (ast_1.ArrayAccess (inl alias) (ast_1.Integer j) token)) s'
         = (Ok (if bool_decide (j = i) then v
                else default VNone (items !! Z.to_nat j)), s')).
Proof.
  exists (with_envs (alter (set_variable name (VList ref)) owner)
            (with_objects (λ os, <[ref := OList (<[Z.to_nat i := v]> items)]> os) s)).
  assert (Hidx : ∀ j s0, evaluate steps (S d) (Some (ast_1.Integer j)) s0
                         = (Ok (VInt j), s0)) by done.
  split; [|split; [done|]].
  - change (evaluate steps (S (S d))
              (Some (ast_1.ArrayAssign (inl name) (ast_1.Integer i) value token)))
      with (visit_array_assign (evaluate steps (S d)) (inl name) (ast_1.Integer i)
              value token).
    unfold visit_array_assign, array_name_of, index_checks, Environment_get,
      Environment_assign, Environment_define, bind, gets, modify, ret, lift.
    rewrite Hname, Hidx, Hvalue, Hitems, (in_bounds _ _ Hi).
    cbn [envs env with_objects with_envs]. rewrite Hname. reflexivity.
  - intros alias o j Halias Hj.
    assert (Hfind : find_binding (alter (set_variable name (VList ref)) owner (envs s))
                      (length (alter (set_variable name (VList ref)) owner (envs s)))
                      (env s) alias = Some (o, VList ref)).
    { rewrite length_alter. destruct (decide (name = alias)) as [<-|Hne].
      - rewrite (find_binding_update _ _ _ _ _ _ _ Hname). congruence.
      - by rewrite find_binding_other_name. }
    pose proof (lookup_lt_Some _ _ _ Hitems) as Href.
    change (evaluate steps (S (S d))
              (Some (ast_1.ArrayAccess (inl alias) (ast_1.Integer j) token)))
      with (visit_array_access (evaluate steps (S d)) (inl alias) (ast_1.Integer j) token).
    unfold visit_array_access, array_name_of, index_checks, Environment_get,
      bind, gets, ret, lift.
    cbn [envs env objects with_objects with_envs].
    rewrite Hfind, Hidx. cbn [envs env objects with_objects with_envs].
    rewrite list_lookup_insert_eq by done.
    rewrite length_insert, (in_bounds _ _ Hj).
    case_bool_decide as Hji.
    + subst j. rewrite list_lookup_insert_eq by lia. done.
    + rewrite list_lookup_insert_ne by lia.
      destruct (lookup_lt_is_Some_2 items (Z.to_nat j) ltac:(lia)) as [x Hx].
      by rewrite Hx.
Qed.

Lemma array_write_then_read_witness :
  ∃ s',
    evaluate 1 2
      (Some (ast_1.ArrayAssign (inl "a") (ast_1.Integer 1) (ast_1.Integer 7)
               (op (OTHER "IDENTIFIER") "a"))) shared_array = (Ok (VInt 7), s')
    ∧ objects s' = <[0 := OList (<[Z.to_nat 1 := VInt 7]> [VInt 10; VInt 20; VInt 30])]>
                     (objects shared_array)
    ∧ (∀ alias o j,
         find_binding (envs shared_array) (length (envs shared_array)) (env shared_array)
           alias = Some (o, VList 0) →
         (0 ≤ j < Z.of_nat (length [VInt 10; VInt 20; VInt 30]))%Z →
         evaluate 1 2
           (Some (ast_1.ArrayAccess (inl alias) (ast_1.Integer j)
                    (op (OTHER "IDENTIFIER") "a"))) s'
         = (Ok (if bool_decide (j = 1%Z) then VInt 7
                else default VNone ([VInt 10; VInt 20; VInt 30] !! Z.to_nat j)), s')).
Proof.
  apply (array_write_then_read 1 0 shared_array "a" 0 0 [VInt 10; VInt 20; VInt 30] 1
           (ast_1.Integer 7) (VInt 7) (op (OTHER "IDENTIFIER") "a")).
  - reflexivity.
  - reflexivity.
  - cbn. lia.
  - reflexivity.
Defined.



(** ** Boolean operands of the arithmetic and comparison operators *)

(** X21: a Boolean operand counts as the Integer 1 or 0.  The test that
    [check_number_operands] makes, [isinstance(x, (int, float))], holds of
    a Boolean as well, so [- * / ** %] and [< > <= >=] do on a Boolean
    operand, on either side, exactly what they do on the Integer 1 (for
    [true]) or 0 (for [false]), and so does [+] next to anything but a
    String: [true < 5] is true, [false * 2] is 0 and [true + 1] is 2, none
    is a type error. *)
Theorem boolean_operands_are_numbers (depth : nat) (operator : Token) (b : bool)
    (v : Value) (s : Evaluator)
    (Hop : arithmetic_or_comparison (tok_type operator)
           ∨ (tok_type operator = PLUS ∧ kind_of v ≠ KString)) :
  binary_operation depth operator (VBool b) v s
  = binary_operation depth operator (VInt (Z.b2z b)) v s
  ∧ binary_operation depth operator v (VBool b) s
    = binary_operation depth operator v (VInt (Z.b2z b)) s.
Proof.
  destruct Hop as [Hop | [Hop Hv]].
  - unfold arithmetic_or_comparison in Hop. operator_cases Hop;
      unfold binary_operation, check_number_operands; rewrite Hop;
      split; by destruct v.
  - unfold binary_operation. rewrite Hop. split; by destruct v.
Qed.

Lemma boolean_operands_are_numbers_witness :
  binary_operation 0 (op LT "<") (VBool true) (VInt 5) Evaluator_init
  = (Ok (VBool true), Evaluator_init)
  ∧ binary_operation 0 (op MULTIPLY "*") (VBool false) (VInt 2) Evaluator_init
    = (Ok (VInt 0), Evaluator_init)
  ∧ binary_operation 0 (op PLUS "+") (VBool true) (VInt 1) Evaluator_init
    = (Ok (VInt 2), Evaluator_init).
Proof.
  assert (Hlt : arithmetic_or_comparison (tok_type (op LT "<"))).
  { unfold arithmetic_or_comparison; simpl. repeat constructor. }
  assert (Hmul : arithmetic_or_comparison (tok_type (op MULTIPLY "*"))).
  { unfold arithmetic_or_comparison; simpl. repeat constructor. }
  assert (Hint : kind_of (VInt 1) ≠ KString) by done.
  split; [|split].
  - rewrite (proj1 (boolean_operands_are_numbers 0 (op LT "<") true (VInt 5) Evaluator_init
                      (or_introl Hlt))).
    reflexivity.
  - rewrite (proj1 (boolean_operands_are_numbers 0 (op MULTIPLY "*") false (VInt 2)
                      Evaluator_init (or_introl Hmul))).
    reflexivity.
  - rewrite (proj1 (boolean_operands_are_numbers 0 (op PLUS "+") true (VInt 1)
                      Evaluator_init (or_intror (conj eq_refl Hint)))).
    reflexivity.
Defined.

(** ** Function.call: parameters and lexical scope *)

Lemma with_envs_same (s : Evaluator) : with_envs (λ _, envs s) s = s.
Proof. by destruct s. Qed.

Lemma for_zip_define (params : list string) (arguments : list Value) (e : nat)
    (s : Evaluator) (r : Environment) :
  envs s !! e = Some r →
  ∃ es',
    for_zip (Environment_define e) params arguments s = (Ok tt, with_envs (λ _, es') s)
    ∧ length es' = length (envs s)
    ∧ (∀ i, i ≠ e → es' !! i = envs s !! i)
    ∧ es' !! e = Some (mkEnvironment (parent r)
                         (bind_parameters params arguments (variables r))).
Proof.
  revert arguments s r.
  induction params as [|p params IH]; intros arguments s r Hr.
  - exists (envs s). rewrite with_envs_same. by destruct r.
  - destruct arguments as [|a arguments].
    { exists (envs s). rewrite with_envs_same. by destruct r. }
    cbn [for_zip]. unfold bind at 1, Environment_define at 1, modify.
    destruct (IH arguments (with_envs (alter (set_variable p a) e) s)
                (set_variable p a r)) as (es' & Hrun & Hlen & Hother & Hself).
    { cbn [envs with_envs]. rewrite list_lookup_alter, decide_True, Hr by done. done. }
    exists es'. split; [by rewrite Hrun|].
    cbn [envs with_envs] in *. rewrite length_alter in Hlen.
    split; [done|]. split; [|done].
    intros i Hi. rewrite Hother by done. by rewrite list_lookup_alter_ne.
Qed.

(** X15: parameters shadow, free variables are lexical.  Call a user
    function whose body is [return x] with as many arguments as it has
    parameters.  If [x] is one of the parameters, the result is the argument
    bound to it (the last one, should the name be repeated); otherwise it is
    what [x] resolves to from the function's closure environment, whatever
    environment is current at the call.  The call adds one environment and
    changes no earlier one; on return the current environment and the
    current function are those of the caller, and nothing was printed. *)
Theorem call_is_lexically_scoped (steps d : nat) (f : Function) (x : string)
    (tk token : Token) (arguments : list Value) (v : Value) (s : Evaluator)
    (Hbody : fn_body f = returns_variable x tk)
    (Harity : length arguments = length (fn_params f))
    (Hsteps : 0 < steps)
    (Hvalue : bind_parameters (fn_params f) arguments ∅ !! x = Some v
              ∨ (bind_parameters (fn_params f) arguments ∅ !! x = None
                 ∧ ∃ owner, find_binding (envs s) (length (envs s)) (fn_closure f) x
                            = Some (owner, v))) :
  ∃ s',
    call steps (S (S (S d))) (VFunction f) arguments token s = (Ok v, s')
    ∧ env s' = env s
    ∧ current_function s' = current_function s
    ∧ length (envs s') = S (length (envs s))
    ∧ (∀ i, i < length (envs s) → envs s' !! i = envs s !! i)
    ∧ stdout s' = stdout s.
Proof.
  destruct steps as [|k]; [lia|].
  set (s0 := with_envs (λ es, es ++ [mkEnvironment (Some (fn_closure f)) ∅]) s).
  destruct (for_zip_define (fn_params f) arguments (length (envs s)) s0
              (mkEnvironment (Some (fn_closure f)) ∅))
    as (es' & Hrun & Hlen & Hother & Hself).
  { subst s0. cbn [envs with_envs]. by rewrite lookup_app_r, Nat.sub_diag. }
  cbn [parent variables] in Hself.
  assert (Hlen' : length es' = S (length (envs s))).
  { rewrite Hlen. subst s0. cbn [envs with_envs]. rewrite length_app. cbn. lia. }
  assert (Hkept : ∀ i, i < length (envs s) → es' !! i = envs s !! i).
  { intros i Hi. rewrite Hother by lia. subst s0. cbn [envs with_envs].
    by rewrite lookup_app_l. }
  assert (Hfind : ∃ o, find_binding es' (length es') (length (envs s)) x = Some (o, v)).
  { rewrite Hlen'. cbn [find_binding]. rewrite Hself. cbn [variables parent].
    destruct Hvalue as [-> | [-> [o Ho]]]; [by eauto|].
    exists o. eapply find_binding_frame; [exact Ho | exact Hkept | lia]. }
  destruct Hfind as [o Hfind].
  exists (with_env (env s)
            (with_current_function (current_function s)
               (with_in_tail_position true (with_envs (λ _, es') s)))).
  split; [|by repeat split].
  cbn [call callable_call]. unfold Function_call.
  rewrite bool_decide_false by (intros H; by apply H).
  unfold bind at 1, new_Environment at 1. fold s0.
  unfold bind at 1. rewrite Hrun.
  unfold bind, gets, modify, try_except. cbn [trampoline].
  unfold try_except, execute_block, bind, gets, modify, try_finally.
  rewrite Hbody. cbn -[find_binding].
  unfold visit_return, try_finally, bind, gets, modify, ret, raise.
  cbn beta iota. cbn [accept].
  unfold visit_var, Environment_get, bind, gets, ret, raise.
  cbn [env envs current_function in_tail_position with_env with_current_function
       with_in_tail_position with_envs].
  rewrite Hfind. cbn. by rewrite orb_true_r.
Qed.

Lemma call_is_lexically_scoped_witness :
  ∃ s',
    call 1 3 (VFunction get_x) [VInt 5] call_token caller_shadows_x = (Ok (VInt 1), s')
    ∧ env s' = env caller_shadows_x
    ∧ current_function s' = current_function caller_shadows_x
    ∧ length (envs s') = S (length (envs caller_shadows_x))
    ∧ (∀ i, i < length (envs caller_shadows_x) → envs s' !! i = envs caller_shadows_x !! i)
    ∧ stdout s' = stdout caller_shadows_x.
Proof.
  apply (call_is_lexically_scoped 1 0 get_x "x" (op (OTHER "IDENTIFIER") "x") call_token
           [VInt 5] (VInt 1) caller_shadows_x).
  - reflexivity.
  - reflexivity.
  - lia.
  - right. split; [reflexivity|]. by exists 0.
Defined.

(** ** visit_for *)

Lemma loop_condition_int (c cur b : Z) :
  (py_gt (NInt c) (NInt 0) && py_le (NInt cur) (NInt b))
  || (py_lt (NInt c) (NInt 0) && py_ge (NInt cur) (NInt b))
  = in_range c cur b.
Proof.
  unfold py_gt, py_le, py_lt, py_ge, in_range, num_compare.
  destruct (Z.compare_spec c 0), (Z.compare_spec cur b);
    destruct (Z.ltb_spec 0 c), (Z.leb_spec cur b), (Z.ltb_spec c 0), (Z.leb_spec b cur);
    simpl; try done; lia.
Qed.

Lemma for_loop_step (steps d : nat) (var_name : string) (loop_env : nat) (b c cur : Z)
    (fuel : nat) (result : Value) (s : Evaluator) (rl : Environment) :
  envs s !! loop_env = Some rl →
  variables rl !! var_name = Some (VInt cur) →
  in_range c cur b = true →
  ∃ s',
    for_loop (evaluate steps (S (S d))) var_name (print_variable var_name) loop_env
      (NInt b) (NInt c) (S fuel) (NInt cur) result s
    = for_loop (evaluate steps (S (S d))) var_name (print_variable var_name) loop_env
        (NInt b) (NInt c) fuel (NInt (cur + c)) (VInt cur) s'
    ∧ envs s' !! loop_env = Some (set_variable var_name (VInt (cur + c)) rl)
    ∧ stdout s' = stdout s ++ [pretty cur]
    ∧ env s' = env s
    ∧ current_function s' = current_function s
    ∧ objects s' = objects s.
Proof.
  intros Hrl Hvar Hin.
  pose proof (lookup_lt_Some _ _ _ Hrl) as Hlt.
  assert (Hfind : find_binding (envs s ++ [mkEnvironment (Some loop_env) ∅])
                    (length (envs s ++ [mkEnvironment (Some loop_env) ∅]))
                    (length (envs s)) var_name = Some (loop_env, VInt cur)).
  { rewrite length_app. cbn [length]. rewrite Nat.add_1_r. cbn [find_binding].
    rewrite lookup_app_r, Nat.sub_diag by lia. cbn [lookup list_lookup variables parent].
    rewrite lookup_empty.
    destruct (length (envs s)) as [|n] eqn:En; [lia|]. cbn [find_binding].
    rewrite lookup_app_l, Hrl, Hvar by lia. done. }
  assert (Hfind' : find_binding (envs s ++ [mkEnvironment (Some loop_env) ∅])
                     (length (envs s ++ [mkEnvironment (Some loop_env) ∅]))
                     loop_env var_name = Some (loop_env, VInt cur)).
  { rewrite length_app. cbn [length]. rewrite Nat.add_1_r. cbn [find_binding].
    rewrite lookup_app_l, Hrl, Hvar by lia. done. }
  eexists. split.
  - cbn [for_loop]. rewrite loop_condition_int, Hin.
    unfold bind at 1, new_Environment at 1.
    unfold print_variable, ident, execute_block, try_finally, bind, gets, modify, ret, lift.
    cbn -[find_binding pretty for_loop].
    unfold visit_print, stringify, print, bind, gets, modify, ret, lift. cbn [accept].
    unfold visit_var, Environment_get, bind, gets, ret.
    cbn [env envs with_env with_envs with_in_tail_position with_stdout].
    rewrite Hfind. cbn -[find_binding pretty for_loop].
    rewrite Hfind'. cbn -[find_binding pretty for_loop].
    reflexivity.
  - cbn [envs stdout env current_function objects with_envs with_env
         with_in_tail_position with_stdout].
    split; [|done].
    rewrite list_lookup_alter, decide_True, lookup_app_l, Hrl by done. done.
Qed.

Lemma for_count_zero (a b c : Z) :
  c ≠ 0%Z → for_count a b c = 0 → in_range c a b = false.
Proof.
  unfold for_count, in_range. intros Hc H.
  destruct (Z.ltb_spec 0 c), (Z.ltb_spec c 0), (Z.leb_spec a b), (Z.leb_spec b a);
    simpl; try done; try lia.
  - assert (0 <= (b - a) `div` c)%Z by (apply Z.div_pos; lia). lia.
  - assert (0 <= (b - a) `div` c)%Z by (apply Z.div_pos; lia). lia.
  - assert (0 <= (a - b) `div` (- c))%Z by (apply Z.div_pos; lia). lia.
  - assert (0 <= (a - b) `div` (- c))%Z by (apply Z.div_pos; lia). lia.
Qed.

Lemma for_count_succ (a b c : Z) (n : nat) :
  for_count a b c = S n → in_range c a b = true ∧ for_count (a + c) b c = n.
Proof.
  unfold for_count, in_range. intros H.
  destruct (Z.ltb_spec 0 c), (Z.ltb_spec c 0); simpl; try lia.
  - assert (0 <= (b - a) `div` c)%Z as Hq by lia.
    assert (a <= b)%Z.
    { destruct (Z.le_gt_cases a b); [done|].
      assert ((b - a) `div` c < 0)%Z by (apply Z.div_lt_upper_bound; lia). lia. }
    split; [by rewrite (proj2 (Z.leb_le a b))|].
    replace (b - (a + c))%Z with ((b - a) + (-1) * c)%Z by lia.
    rewrite Z.div_add by lia. lia.
  - assert (0 <= (a - b) `div` (- c))%Z as Hq by lia.
    assert (b <= a)%Z.
    { destruct (Z.le_gt_cases b a); [done|].
      assert ((a - b) `div` (- c) < 0)%Z by (apply Z.div_lt_upper_bound; lia). lia. }
    split; [by rewrite (proj2 (Z.leb_le b a))|].
    replace (a + c - b)%Z with ((a - b) + (-1) * (- c))%Z by lia.
    rewrite Z.div_add by lia. lia.
Qed.

Lemma for_values_succ (a c : Z) (n : nat) :
  for_values a c (S n) = a :: for_values (a + c) c n.
Proof.
  unfold for_values. cbn [seq fmap list_fmap]. f_equal; [lia|].
  rewrite <- seq_shift, <- list_fmap_compose. apply list_fmap_ext.
  intros i x _. simpl. lia.
Qed.

Lemma for_loop_prints (steps d : nat) (var_name : string) (loop_env : nat) (b c : Z) :
  c ≠ 0%Z →
  ∀ (n fuel : nat) (cur : Z) (result : Value) (s : Evaluator) (rl : Environment),
    envs s !! loop_env = Some rl →
    variables rl !! var_name = Some (VInt cur) →
    for_count cur b c = n →
    n < fuel →
    ∃ s',
      for_loop (evaluate steps (S (S d))) var_name (print_variable var_name) loop_env
        (NInt b) (NInt c) fuel (NInt cur) result s
      = (Ok (default result (VInt <$> last (for_values cur c n))), s')
      ∧ stdout s' = stdout s ++ (pretty <$> for_values cur c n)
      ∧ env s' = env s
      ∧ current_function s' = current_function s
      ∧ objects s' = objects s.
Proof.
  intros Hc n. induction n as [|n IH]; intros fuel cur result s rl Hrl Hvar Hn Hfuel.
  - destruct fuel as [|fuel]; [lia|]. exists s.
    cbn [for_loop]. rewrite loop_condition_int, (for_count_zero _ _ _ Hc Hn).
    unfold for_values. cbn. rewrite app_nil_r. done.
  - destruct fuel as [|fuel]; [lia|].
    destruct (for_count_succ _ _ _ _ Hn) as [Hin Hn'].
    destruct (for_loop_step steps d var_name loop_env b c cur fuel result s rl Hrl Hvar Hin)
      as (s1 & -> & Hrl1 & Hout1 & Henv1 & Hcf1 & Hobj1).
    destruct (IH fuel (cur + c)%Z (VInt cur) s1 _ Hrl1) as (s' & -> & Hout & Henv & Hcf & Hobj).
    { unfold set_variable. cbn [variables]. by rewrite lookup_insert_eq. }
    { done. }
    { lia. }
    exists s'. rewrite for_values_succ.
    split; [|split; [|split; [|split]]]; try congruence.
    + f_equal. f_equal. destruct n as [|n']; [done|].
      rewrite for_values_succ, !last_cons.
      by destruct (last (for_values (cur + c + c) c n')).
    + rewrite Hout, Hout1, fmap_cons, <- app_assoc. done.
Qed.

(** X16: the values of a [for] loop.  [for i = a to b step c { print i }] with Integer
    literals and [c] not zero prints [a], [a + c], [a + 2c], ... as long
    as the value has not passed [b] (so nothing when [a] is already past
    it), each once and in order; its value is the last value printed, or
    None when there was none; afterwards the current environment is the
    one from before the loop.  The loop needs one step of the budget per
    iteration and one for the last test. *)
Theorem for_visits_each_value (steps d : nat) (var_name : string) (a b c : Z)
    (s : Evaluator) :
  c ≠ 0%Z →
  for_count a b c < steps →
  ∃ s',
    evaluate steps (S (S (S d)))
      (Some (ast_1.For var_name (ast_1.Integer a) (ast_1.Integer b)
               (Some (ast_1.Integer c)) (print_variable var_name))) s
    = (Ok (default VNone (VInt <$> last (for_values a c (for_count a b c)))), s')
    ∧ stdout s' = stdout s ++ (pretty <$> for_values a c (for_count a b c))
    ∧ env s' = env s.
Proof.
  intros Hc Hsteps.
  change (evaluate steps (S (S (S d))) (Some ?n))
    with (accept steps (S (S d)) (evaluate steps (S (S d))) (call steps (S (S d))) n).
  cbn [accept]. unfold visit_for.
  change (evaluate steps (S (S d)) (Some (ast_1.Integer ?z))) with (ret (VInt z)).
  unfold bind at 1, ret at 1. unfold bind at 1, ret at 1. unfold bind at 1, ret at 1.
  cbn [as_number]. rewrite equals_zero_int, bool_decide_false by done.
  unfold bind at 1, gets at 1. unfold bind at 1, new_Environment at 1.
  unfold bind at 1, Environment_define at 1, modify at 1.
  set (s0 := with_envs _ (with_envs _ s)).
  destruct (for_loop_prints steps d var_name (length (envs s)) b c Hc
              (for_count a b c) steps a VNone s0
              (set_variable var_name (VInt a) (mkEnvironment (Some (env s)) ∅)))
    as (s' & -> & Hout & Henv & _); try done.
  - subst s0. cbn [envs with_envs].
    rewrite list_lookup_alter, decide_True, lookup_app_r, Nat.sub_diag by done. done.
  - unfold set_variable. cbn [variables]. by rewrite lookup_insert_eq.
  - by exists s'.
Qed.

Lemma for_visits_each_value_witness :
  ∃ s',
    evaluate 5 3
      (Some (ast_1.For "i" (ast_1.Integer 10) (ast_1.Integer 1)
               (Some (ast_1.Integer (-4))) (print_variable "i"))) two_scopes
    = (Ok (VInt 2), s')
    ∧ stdout s' = ["10"; "6"; "2"]
    ∧ env s' = 1.
Proof.
  apply (for_visits_each_value 5 0 "i" 10 1 (-4) two_scopes); [done | vm_compute; lia].
Defined.

(** ** Function.call: the trampoline on an accumulator-style function *)

Lemma sum_body_step (steps d : nat) (p : positive) (acc : Z) (tail : bool) :
  execute_block (evaluate steps (S (S (S (S d))))) sum_body 1 (sum_frame (Z.pos p) acc tail)
  = (Raise (TailCall sum_function [VInt (Z.pos p - 1); VInt (acc + Z.pos p)]),
     sum_frame (Z.pos p) acc true).
Proof. destruct tail; vm_compute; reflexivity. Qed.

Lemma sum_rebind (n acc n' acc' : Z) (tail : bool) :
  for_zip (λ param arg, Environment_assign 1 param arg call_token ;; ret tt)
    ["n"; "acc"] [VInt n'; VInt acc'] (sum_frame n acc tail)
  = (Ok tt, sum_frame n' acc' tail).
Proof. vm_compute; reflexivity. Qed.

Lemma sum_body_last (steps d : nat) (acc : Z) (tail : bool) :
  ∃ s', execute_block (evaluate steps (S (S (S (S d))))) sum_body 1 (sum_frame 0 acc tail)
        = (Raise (Return (VInt acc)), s') ∧ stdout s' = [] ∧ length (envs s') = 3.
Proof. eexists. split; [vm_compute; reflexivity | split; reflexivity]. Qed.

Lemma sum_trampoline (steps d k : nat) :
  ∀ (fuel : nat) (acc : Z) (tail : bool),
    k < fuel →
    ∃ s', trampoline (evaluate steps (S (S (S (S d))))) (call steps (S (S (S (S d)))))
            sum_function 1 call_token sum_restore fuel (sum_frame (Z.of_nat k) acc tail)
          = (Raise (Return (VInt (acc + sum_to k))), s')
          ∧ stdout s' = [] ∧ length (envs s') = 3.
Proof.
  induction k as [|k IH]; intros [|fuel] acc tail Hk; try lia.
  - destruct (sum_body_last steps d acc tail) as (s' & E & Hout).
    exists s'. split; [|done].
    cbn [trampoline sum_to]. unfold try_except. rewrite (bind_raise _ _ _ _ _ E).
    by rewrite Z.add_0_r.
  - destruct (IH fuel (acc + Z.of_nat (S k))%Z true ltac:(lia)) as (s' & E & Hout).
    exists s'. split; [|done].
    cbn [trampoline]. unfold try_except.
    change (Z.of_nat (S k)) with (Z.pos (Pos.of_succ_nat k)) in *.
    rewrite (bind_raise _ _ _ _ _ (sum_body_step steps d _ acc tail)).
    cbn [fn_id fn_params sum_function length].
    change (bool_decide (0 ≠ 0)) with false. change (bool_decide (2 ≠ 2)) with false.
    cbv iota.
    rewrite (bind_ok _ _ _ _ _ (sum_rebind _ _ _ _ _)).
    replace (Z.pos (Pos.of_succ_nat k) - 1)%Z with (Z.of_nat k) by lia.
    rewrite E. do 3 f_equal. cbn [sum_to].
    change (Z.of_nat (S k)) with (Z.pos (Pos.of_succ_nat k)). f_equal. lia.
Qed.

Lemma sum_enters_trampoline (steps : nat) (ev : option AST → M Value)
    (cl : Value → list Value → Token → M Value) (n : Z) :
  Function_call steps ev cl sum_function [VInt n; VInt 0] call_token sum_defined
  = try_except (trampoline ev cl sum_function 1 call_token sum_restore steps)
      (λ e, match e with
            | Return value => Some (sum_restore ;; ret value)
            | _ => None
            end)
      (sum_frame n 0 false).
Proof. reflexivity. Qed.

Lemma sum_call (steps d N : nat) :
  N < steps →
  ∃ s', call steps (S (S (S (S (S d))))) (VFunction sum_function)
          [VInt (Z.of_nat N); VInt 0] call_token sum_defined
        = (Ok (VInt (sum_to N)), s')
        ∧ stdout s' = [] ∧ length (envs s') = 3.
Proof.
  intros HN.
  destruct (sum_trampoline steps d N steps 0%Z false HN) as (s' & E & Hout).
  exists (with_env 0 (with_current_function None s')). split; [|done].
  change (call steps (S (S (S (S (S d))))) (VFunction sum_function) ?a ?t)
    with (Function_call steps (evaluate steps (S (S (S (S d))))) (call steps (S (S (S (S d)))))
            sum_function a t).
  rewrite sum_enters_trampoline. unfold try_except. rewrite E. reflexivity.
Qed.

Lemma sum_program_calls (steps d : nat) (n : Z)
    (cl : Value → list Value → Token → M Value) (v : Value) (s' : Evaluator) :
  cl (VFunction sum_function) [VInt n; VInt 0] call_token sum_defined = (Ok v, s') →
  execute_block
    (λ node, match node with
             | Some nd => accept steps (S d) (evaluate steps (S d)) cl nd
             | None => ret VNone
             end)
    (sum_program n) 0 Evaluator_init
  = (Ok v, with_env 0 (with_in_tail_position false s')).
Proof.
  intros E. vm_compute.
  match goal with
  | |- context [cl ?f ?a ?t ?s] =>
      change (cl f a t s)
        with (cl (VFunction sum_function) [VInt n; VInt 0] call_token sum_defined)
  end.
  rewrite E. reflexivity.
Qed.

(** X17: a self call in tail position costs no depth.  A self call in a [return] at the
    end of the body is run by the loop of [Function.call], not by a nested
    call: the program [func sum(n, acc) { if n == 0 { return acc } return
    sum(n - 1, acc + n) }  sum(N, 0)] gives [N + ... + 1] and prints
    nothing for every [N], within native depth 6; what grows with [N] is
    only the number of rounds of that loop. *)
Theorem tail_recursion_runs_in_the_loop (steps d N : nat) :
  N < steps →
  run steps (S (S (S (S (S (S d)))))) (sum_program (Z.of_nat N)) = (Ok (VInt (sum_to N)), []).
Proof.
  intros HN. destruct (sum_call steps d N HN) as (s' & E & Hout & _).
  unfold run, interpret, try_except, bind, gets. cbn [global_env Evaluator_init].
  change (evaluate steps (S (S (S (S (S (S d)))))))
    with (λ node, match node with
                  | Some nd => accept steps (S (S (S (S (S d))))) (evaluate steps (S (S (S (S (S d))))))
                                 (call steps (S (S (S (S (S d)))))) nd
                  | None => ret VNone
                  end).
  change (mkEvaluator [mkEnvironment None {["len" := VBuiltin "len"]}] [] 0 0 0 None false [])
    with Evaluator_init.
  rewrite (sum_program_calls steps (S (S (S (S d)))) _ _ _ _ E).
  cbn [stdout with_env with_in_tail_position]. by rewrite Hout.
Qed.

Lemma tail_recursion_runs_in_the_loop_witness :
  run 101 6 (sum_program 100) = (Ok (VInt 5050), []).
Proof.
  apply (tail_recursion_runs_in_the_loop 101 0 100). lia.
Defined.

(** ** The tail-call mechanism against naive recursion *)

(** The code on the failing input of C1.  In [func fact(n) { if n <= 1
    { return 1 } return n * fact(n - 1) }  fact(3)] the self call is an
    operand of [*], not the returned expression; the evaluator nevertheless
    takes it for a tail call and restarts the body, so the multiplications
    are lost and the result is 1.  Naive recursion gives 6. *)
Theorem operand_call_is_eliminated :
  run 10 20 factorial_program = (Ok (VInt 1), [])
  ∧ Reference.run 10 20 factorial_program = (Ok (VInt 6), []).
Proof. split; vm_compute; reflexivity. Qed.

(** Two more programs on which the mechanism changes what is observed: an
    argument that prints is evaluated twice in [return g(print 1)], and a
    self call that is the last statement of a nested block, but not of the
    body, ends the current round of the body. *)
Example argument_is_evaluated_twice :
  run 10 20 logged_argument_program = (Ok (VInt 1), ["1"; "1"])
  ∧ Reference.run 10 20 logged_argument_program = (Ok (VInt 1), ["1"]).
Proof. split; vm_compute; reflexivity. Qed.

Example nested_block_call_is_eliminated :
  run 10 20 countdown_program = (Ok (VInt 0), ["0"])
  ∧ Reference.run 10 20 countdown_program = (Ok (VInt 2), ["0"; "1"; "2"]).
Proof. split; vm_compute; reflexivity. Qed.

(** The counterexample to C2 as stated: the last action of [f] is a call to
    itself, and the result differs from that of the directly recursive
    evaluation, because the closure made in one round sees the parameter as
    rebound by the next one. *)
Lemma closure_sees_the_rebinding :
  run 10 20 closure_program = (Ok (VInt 0), [])
  ∧ Reference.run 10 20 closure_program = (Ok (VInt 1), []).
Proof. split; vm_compute; reflexivity. Qed.

Lemma rebinding_keeps_environments (e : nat) (token : Token) (params : list string) :
  ∀ (arguments : list Value) (s s' : Evaluator) (o : Outcome unit),
    for_zip (λ param arg, Environment_assign e param arg token ;; ret tt)
      params arguments s = (o, s') →
    length (envs s') = length (envs s).
Proof.
  induction params as [|p params IH]; intros [|a arguments] s s' o; cbn [for_zip];
    try (by intros [= _ <-]).
  unfold bind at 1. unfold bind at 1, Environment_assign, bind at 1, gets at 1.
  destruct (find_binding (envs s) (length (envs s)) e p) as [[owner old]|].
  - unfold bind, Environment_define, modify, ret. intros H.
    rewrite (IH _ _ _ _ H). cbn [envs with_envs]. by rewrite length_alter.
  - by intros [= _ <-].
Qed.

(** C2, amended.  For every function, a tail call of the function to itself
    is taken by the loop of [Function.call] at the native depth of the
    call: the parameters are rebound in the Environment of the call, which
    creates no environment, and the body is run again in it.  For the
    accumulator-style sum, whose body creates no closure, [sum(N, 0)]
    thus completes for every [N] within the fixed native depth 6, with
    three environments in all (the global one, the one of the call, and
    the one of the block that holds the last [return]); its result is
    that of the directly recursive definition of the sum, and for [N] up
    to 10 that of the directly recursive evaluation of the program, which
    needs two more levels of native depth for each further call. *)
Theorem self_tail_calls_reuse_the_frame (steps d N : nat) :
  N < steps →
  (∀ ev cl self env_ token restore fuel s s1 f arguments,
     execute_block ev (fn_body self) env_ s = (Raise (TailCall f arguments), s1) →
     fn_id f = fn_id self →
     length arguments = length (fn_params self) →
     trampoline ev cl self env_ token restore (S fuel) s
     = (for_zip (λ param arg, Environment_assign env_ param arg token ;; ret tt)
          (fn_params self) arguments ;;
        trampoline ev cl self env_ token restore fuel) s1
     ∧ ∀ o s2,
         for_zip (λ param arg, Environment_assign env_ param arg token ;; ret tt)
           (fn_params self) arguments s1 = (o, s2) →
         length (envs s2) = length (envs s1))
  ∧ (∃ s',
       interpret steps (S (S (S (S (S (S d)))))) (sum_program (Z.of_nat N)) Evaluator_init
       = (Ok (VInt (sum_to N)), s')
       ∧ stdout s' = [] ∧ length (envs s') = 3)
  ∧ Forall (λ n, Reference.run 1 (5 + 2 * n) (sum_program (Z.of_nat n))
                 = (Ok (VInt (sum_to n)), [])
                 ∧ ∀ v, (Reference.run 1 (4 + 2 * n) (sum_program (Z.of_nat n))).1 ≠ Ok v)
      (seq 0 11).
Proof.
  intros HN. split; [|split].
  - intros ev cl self env_ token restore fuel s s1 f arguments Hbody Hid Harity.
    split; [|intros o s2; apply rebinding_keeps_environments].
    cbn [trampoline]. unfold try_except. rewrite (bind_raise _ _ _ _ _ Hbody).
    rewrite bool_decide_false by (intros H; by apply H).
    rewrite bool_decide_false by (intros H; by apply H). done.
  - destruct (sum_call steps d N HN) as (s' & E & Hout & Henvs).
    exists (with_env 0 (with_in_tail_position false s')). split; [|done].
    unfold interpret, try_except, bind, gets. cbn [global_env Evaluator_init].
    change (evaluate steps (S (S (S (S (S (S d)))))))
      with (λ node, match node with
                    | Some nd =>
                        accept steps (S (S (S (S (S d))))) (evaluate steps (S (S (S (S (S d))))))
                          (call steps (S (S (S (S (S d)))))) nd
                    | None => ret VNone
                    end).
    change (mkEvaluator [mkEnvironment None {["len" := VBuiltin "len"]}] [] 0 0 0 None
              false [])
      with Evaluator_init.
    by rewrite (sum_program_calls steps (S (S (S (S d)))) _ _ _ _ E).
  - repeat (apply Forall_cons; split; [split; [vm_compute; reflexivity | by vm_compute]|]).
    by apply Forall_nil.
Qed.

Lemma self_tail_calls_reuse_the_frame_witness :
  ∃ s', interpret 101 6 (sum_program 100) Evaluator_init = (Ok (VInt 5050), s')
        ∧ stdout s' = [] ∧ length (envs s') = 3.
Proof.
  apply (proj1 (proj2 (self_tail_calls_reuse_the_frame 101 0 100 ltac:(lia)))).
Defined.

(** ** The current environment across an evaluation *)

Lemma keeps_ret {A} (a : A) : keeps_scope (ret a).
Proof. intros s v s' [= _ <-]. done. Qed.

Lemma keeps_raise {A} (e : Exception) : keeps_scope (raise (A := A) e).
Proof. intros s v s' [=]. Qed.

Lemma keeps_abort {A} (why : Stop) : keeps_scope (abort (A := A) why).
Proof. intros s v s' [=]. Qed.

Lemma keeps_gets {A} (f : Evaluator → A) : keeps_scope (gets f).
Proof. intros s v s' [= _ <-]. done. Qed.

Lemma keeps_lift {A} (o : Outcome A) : keeps_scope (lift o).
Proof. intros s v s' [= _ <-]. done. Qed.

Lemma keeps_bind {A B} (m : M A) (k : A → M B) :
  keeps_scope m → (∀ a, keeps_scope (k a)) → keeps_scope (bind m k).
Proof.
  intros Hm Hk s v s'. unfold bind. destruct (m s) as [[a|e|why] s1] eqn:E; try done.
  intros H. destruct (Hm _ _ _ E) as [<- <-]. by apply (Hk a s1 v).
Qed.

Lemma keeps_modify (f : Evaluator → Evaluator) :
  (∀ s, env (f s) = env s ∧ current_function (f s) = current_function s) →
  keeps_scope (modify f).
Proof. intros Hf s v s' [= _ <-]. apply Hf. Qed.

Lemma keeps_try_finally {A} (m : M A) (fin : M unit) :
  keeps_scope m → keeps_scope fin → keeps_scope (try_finally m fin).
Proof.
  intros Hm Hfin s v s'. unfold try_finally.
  destruct (m s) as [[a|e|why] s1] eqn:E; try done;
    destruct (fin s1) as [[[]|e'|why'] s2] eqn:E'; try done.
  intros [= _ <-]. destruct (Hm _ _ _ E) as [<- <-]. by apply (Hfin _ _ _ E').
Qed.

Lemma keeps_mapM {A B} (f : A → M B) (l : list A) :
  (∀ a, keeps_scope (f a)) → keeps_scope (mapM f l).
Proof.
  intros Hf. induction l as [|a l IH]; cbn [mapM]; [apply keeps_ret|].
  apply keeps_bind; [done|]. intros b. apply keeps_bind; [done|]. intros bs.
  apply keeps_ret.
Qed.

Lemma keeps_for_zip {A B} (f : A → B → M unit) (xs : list A) (ys : list B) :
  (∀ a b, keeps_scope (f a b)) → keeps_scope (for_zip f xs ys).
Proof.
  intros Hf. revert ys. induction xs as [|x xs IH]; intros [|y ys]; cbn [for_zip];
    try apply keeps_ret.
  apply keeps_bind; [done|]. intros _. apply IH.
Qed.

Lemma keeps_new_Environment (parent : option nat) : keeps_scope (new_Environment parent).
Proof. intros s v s' [= _ <-]. done. Qed.

Lemma keeps_new_Object (o : Object) : keeps_scope (new_Object o).
Proof. intros s v s' [= _ <-]. done. Qed.

Ltac scope_step :=
  lazymatch goal with
  | |- keeps_scope (ret _) => apply keeps_ret
  | |- keeps_scope (raise _) => apply keeps_raise
  | |- keeps_scope (abort _) => apply keeps_abort
  | |- keeps_scope (gets _) => apply keeps_gets
  | |- keeps_scope (lift _) => apply keeps_lift
  | |- keeps_scope (new_Environment _) => apply keeps_new_Environment
  | |- keeps_scope (new_Object _) => apply keeps_new_Object
  | |- keeps_scope (modify _) => apply keeps_modify; intros ?; done
  | |- keeps_scope (bind _ _) => apply keeps_bind; [|intros ?]
  | |- keeps_scope (try_finally _ _) => apply keeps_try_finally
  | |- keeps_scope (mapM _ _) => apply keeps_mapM; intros ?
  | |- keeps_scope (for_zip _ _ _) => apply keeps_for_zip; intros ? ?
  | |- keeps_scope (match ?x with _ => _ end) => destruct x
  end.

Ltac scope := repeat first [progress eauto with scope | scope_step].

Create HintDb scope.

Lemma keeps_Environment_define (self : nat) (name : string) (value : Value) :
  keeps_scope (Environment_define self name value).
Proof. unfold Environment_define. scope. Qed.

Lemma keeps_Environment_get (self : nat) (name : string) (token : Token) :
  keeps_scope (Environment_get self name token).
Proof. unfold Environment_get. scope. Qed.

Lemma keeps_Environment_assign (self : nat) (name : string) (value : Value)
    (token : Token) :
  keeps_scope (Environment_assign self name value token).
Proof. unfold Environment_assign, Environment_define. scope. Qed.

Lemma keeps_stringify (value : Value) : keeps_scope (stringify value).
Proof. unfold stringify. scope. Qed.

Lemma keeps_print (line : string) : keeps_scope (print line).
Proof. unfold print. scope. Qed.

Lemma keeps_binary_operation (depth : nat) (operator : Token) (l r : Value) :
  keeps_scope (binary_operation depth operator l r).
Proof.
  pose proof keeps_stringify.
  unfold binary_operation, check_number_operands. scope.
Qed.

Lemma keeps_index_checks (token : Token) (what : string) (array index : Value) :
  keeps_scope (index_checks token what array index).
Proof. unfold index_checks. scope. Qed.

Lemma keeps_builtin_call (name : string) (arguments : list Value) (token : Token) :
  keeps_scope (BuiltinFunction_call name arguments token).
Proof. unfold BuiltinFunction_call, builtin_len. scope. Qed.

#[local] Hint Resolve keeps_Environment_define keeps_Environment_get
  keeps_Environment_assign keeps_stringify keeps_print keeps_binary_operation
  keeps_index_checks keeps_builtin_call : scope.

Section Scope.

Variables (steps depth : nat).
Variable evaluate : option AST → M Value.
Variable call : Value → list Value → Token → M Value.
Hypothesis keeps_evaluate : ∀ node, keeps_scope (evaluate node).
Hypothesis keeps_call : ∀ callee arguments token, keeps_scope (call callee arguments token).

Lemma keeps_block_loop (statements : list AST) (result : Value) :
  keeps_scope (block_loop evaluate statements result).
Proof using All.
  revert result. induction statements as [|stmt rest IH]; intros result; cbn [block_loop].
  - scope.
  - apply keeps_bind; [scope|]. intros old. apply keeps_bind; [scope|]. intros _.
    apply keeps_bind; [done|]. intros r. apply keeps_bind; [scope|]. intros _. apply IH.
Qed.

Lemma keeps_execute_block (block : AST) (env_ : nat) :
  keeps_scope (execute_block evaluate block env_).
Proof using All.
  intros s v s'. unfold execute_block, try_finally, modify, gets.
  unfold bind at 1. unfold bind at 1.
  destruct (bind (statements_of block) _ _) as [[a|e|why] s1] eqn:E; try done.
  intros [= _ <-]. cbn [env current_function with_env]. split; [done|].
  assert (keeps_scope (let* statements := statements_of block in
                       block_loop evaluate statements VNone)) as Hk.
  { apply keeps_bind; [unfold statements_of; scope|]. intros l. apply keeps_block_loop. }
  by destruct (Hk _ _ _ E) as [_ ->].
Qed.

Lemma keeps_while_loop (condition body : AST) (fuel : nat) (result : Value) :
  keeps_scope (while_loop evaluate condition body fuel result).
Proof using All.
  revert result. induction fuel as [|fuel IH]; intros result; cbn [while_loop]; scope.
Qed.

Lemma keeps_repeat_loop (body condition : AST) (fuel : nat) :
  keeps_scope (repeat_loop evaluate body condition fuel).
Proof using All. induction fuel as [|fuel IH]; cbn [repeat_loop]; scope. Qed.

Lemma keeps_for_loop (var_name : string) (body : AST) (loop_env : nat)
    (end_ step : Number) (fuel : nat) (current : Number) (result : Value) :
  keeps_scope (for_loop evaluate var_name body loop_env end_ step fuel current result).
Proof using All.
  pose proof keeps_execute_block.
  revert current result. induction fuel as [|fuel IH]; intros current result;
    cbn [for_loop]; scope.
Qed.

Lemma keeps_match_loop (value : Value) (cases : list AST) :
  keeps_scope (match_loop depth evaluate value cases).
Proof using All. induction cases as [|c cases IH]; cbn [match_loop]; scope. Qed.

Lemma keeps_dict_pairs (pairs : list (AST * AST)) (items : list (Value * Value)) :
  keeps_scope (dict_pairs evaluate pairs items).
Proof using All.
  revert items. induction pairs as [|[k v] pairs IH]; intros items; cbn [dict_pairs];
    scope.
Qed.

Lemma keeps_accept (node : AST) : keeps_scope (accept steps depth evaluate call node).
Proof using All.
  pose proof keeps_execute_block. pose proof keeps_while_loop.
  pose proof keeps_repeat_loop. pose proof keeps_for_loop.
  pose proof keeps_match_loop. pose proof keeps_dict_pairs.
  destruct node; cbn [accept];
    unfold visit_integer, visit_float, visit_string, visit_boolean, visit_var,
      visit_var_assign, visit_var_reassign, visit_bin_op, visit_unary_op,
      check_number_operand, visit_block, visit_if, visit_while, visit_for,
      visit_repeat_until, visit_match, visit_match_case, visit_func_def,
      visit_func_call, visit_return, visit_lambda, new_Function, visit_array,
      visit_dict, visit_conditional_expr, visit_print, visit_array_assign,
      visit_array_access, array_name_of;
    scope.
Qed.

Lemma lands_trampoline (self : Function) (env_ : nat) (token : Token)
    (pe : nat) (pf : option Function) (fuel : nat) :
  lands_at pe pf
    (trampoline evaluate call self env_ token
       (modify (with_current_function pf) ;; modify (with_env pe)) fuel).
Proof using All.
  induction fuel as [|fuel IH]; intros s v s'; cbn [trampoline]; [done|].
  unfold try_except.
  destruct (bind (execute_block _ _ _) _ s) as [[a|e|why] s1] eqn:E; [| |done].
  - intros [= _ <-]. revert E. unfold bind at 1.
    destruct (execute_block _ _ _ s) as [[r|e|why] s2]; try done.
    unfold bind, modify, ret. by intros [= _ <-].
  - destruct e as [| function arguments | |]; try done.
    destruct (bool_decide (fn_id function ≠ fn_id self)).
    + unfold bind at 1. unfold bind at 1, modify at 1. unfold modify at 1.
      intros H. by destruct (keeps_call _ _ _ _ _ _ H) as [-> ->].
    + destruct (bool_decide (length arguments ≠ length (fn_params self))); [done|].
      unfold bind at 1. destruct (for_zip _ _ _ s1) as [[[]|e|why] s2]; try done.
      apply IH.
Qed.

Lemma keeps_Function_call (self : Function) (arguments : list Value) (token : Token) :
  keeps_scope (Function_call steps evaluate call self arguments token).
Proof using All.
  unfold Function_call.
  destruct (bool_decide (length arguments ≠ length (fn_params self))); [scope|].
  apply keeps_bind; [scope|]. intros env_. apply keeps_bind; [scope|]. intros _.
  intros s v s'. unfold bind at 1, gets at 1. unfold bind at 1, gets at 1.
  unfold try_except.
  destruct (bind (modify (with_current_function (Some self))) _ s) as [[a|e|why] s1] eqn:E;
    [| |done].
  - intros [= _ <-]. revert E. unfold bind at 1, modify at 1. unfold bind at 1, modify at 1.
    apply lands_trampoline.
  - destruct e as [| | value |]; try done.
    unfold bind, modify, ret. by intros [= _ <-].
Qed.

Lemma keeps_callable_call (callee : Value) (arguments : list Value) (token : Token) :
  keeps_scope (callable_call steps evaluate call callee arguments token).
Proof using All.
  pose proof keeps_Function_call. unfold callable_call. scope.
Qed.

End Scope.

Lemma keeps_evaluate_and_call (steps depth : nat) :
  (∀ node, keeps_scope (evaluate steps depth node))
  ∧ (∀ callee arguments token, keeps_scope (call steps depth callee arguments token)).
Proof.
  induction depth as [|d [IHe IHc]]; split; intros; cbn [evaluate call];
    try apply keeps_raise.
  - destruct node; [by apply keeps_accept | apply keeps_ret].
  - by apply keeps_callable_call.
Qed.

(** X18: evaluation keeps the scope.  Whatever the node, the
    budgets and the state: when [evaluate] returns a value, the current
    environment and the current function are the ones from before.  The
    blocks, loops and calls that ran in between have each put back what
    they replaced. *)
Theorem evaluation_keeps_the_scope (steps depth : nat) (node : option AST)
    (s s' : Evaluator) (v : Value) :
  evaluate steps depth node s = (Ok v, s') →
  env s' = env s ∧ current_function s' = current_function s.
Proof. apply (keeps_evaluate_and_call steps depth). Qed.

Lemma evaluation_keeps_the_scope_witness :
  ∃ s', evaluate 5 12 (Some closure_program) two_scopes = (Ok (VInt 0), s')
        ∧ env s' = 1 ∧ current_function s' = None.
Proof.
  eexists. split; [vm_compute; reflexivity|].
  apply (evaluation_keeps_the_scope 5 12 (Some closure_program) two_scopes _ (VInt 0)).
  vm_compute. reflexivity.
Defined.

(** ** What an evaluation never undoes *)

Section Frame.

Variable R : Evaluator → Evaluator → Prop.
Hypothesis R_refl : ∀ s, R s s.
Hypothesis R_trans : ∀ a b c, R a b → R b c → R a c.
Hypothesis R_envs : ∀ f s, R s (with_envs f s).
Hypothesis R_env : ∀ e s, R s (with_env e s).
Hypothesis R_current_function : ∀ f s, R s (with_current_function f s).
Hypothesis R_in_tail_position : ∀ b s, R s (with_in_tail_position b s).
Hypothesis R_next_function : ∀ n s, R s (with_next_function n s).
Hypothesis R_new_object : ∀ o s, R s (with_objects (λ os, os ++ [o]) s).
Hypothesis R_store : ∀ ref items n v s,
  objects s !! ref = Some (OList items) → n < length items →
  R s (with_objects (<[ref := OList (<[n := v]> items)]>) s).
Hypothesis R_print : ∀ line s, R s (with_stdout (λ out, out ++ [line]) s).

Lemma respects_ret {A} (a : A) : respects R (ret a).
Proof using All. intros s o s' [= _ <-]. done. Qed.

Lemma respects_raise {A} (e : Exception) : respects R (raise (A := A) e).
Proof using All. intros s o s' [= _ <-]. done. Qed.

Lemma respects_abort {A} (why : Stop) : respects R (abort (A := A) why).
Proof using All. intros s o s' [= _ <-]. done. Qed.

Lemma respects_gets {A} (f : Evaluator → A) : respects R (gets f).
Proof using All. intros s o s' [= _ <-]. done. Qed.

Lemma respects_lift {A} (o : Outcome A) : respects R (lift o).
Proof using All. intros s o' s' [= _ <-]. done. Qed.

Lemma respects_modify (f : Evaluator → Evaluator) :
  (∀ s, R s (f s)) → respects R (modify f).
Proof using All. intros Hf s o s' [= _ <-]. done. Qed.

Lemma respects_bind {A B} (m : M A) (k : A → M B) :
  respects R m → (∀ a, respects R (k a)) → respects R (bind m k).
Proof using All.
  intros Hm Hk s o s'. unfold bind. destruct (m s) as [[a|e|why] s1] eqn:E.
  - intros H. exact (R_trans _ _ _ (Hm _ _ _ E) (Hk a _ _ _ H)).
  - intros [= _ <-]. exact (Hm _ _ _ E).
  - intros [= _ <-]. exact (Hm _ _ _ E).
Qed.

Lemma respects_try_finally {A} (m : M A) (fin : M unit) :
  respects R m → respects R fin → respects R (try_finally m fin).
Proof using All.
  intros Hm Hfin s o s'. unfold try_finally.
  destruct (m s) as [[a|e|why] s1] eqn:E.
  1,2: destruct (fin s1) as [[[]|e'|why'] s2] eqn:E'; intros [= _ <-];
       exact (R_trans _ _ _ (Hm _ _ _ E) (Hfin _ _ _ E')).
  intros [= _ <-]. exact (Hm _ _ _ E).
Qed.

Lemma respects_try_except {A} (m : M A) (handler : Exception → option (M A)) :
  respects R m → (∀ e h, handler e = Some h → respects R h) →
  respects R (try_except m handler).
Proof using All.
  intros Hm Hh s o s'. unfold try_except.
  destruct (m s) as [[a|e|why] s1] eqn:E.
  - intros [= _ <-]. exact (Hm _ _ _ E).
  - destruct (handler e) as [h|] eqn:Eh.
    + intros H. exact (R_trans _ _ _ (Hm _ _ _ E) (Hh _ _ Eh _ _ _ H)).
    + intros [= _ <-]. exact (Hm _ _ _ E).
  - intros [= _ <-]. exact (Hm _ _ _ E).
Qed.

Lemma respects_mapM {A B} (f : A → M B) (l : list A) :
  (∀ a, respects R (f a)) → respects R (mapM f l).
Proof using All.
  intros Hf. induction l as [|a l IH]; cbn [mapM]; [apply respects_ret|].
  apply respects_bind; [done|]. intros b. apply respects_bind; [done|]. intros bs.
  apply respects_ret.
Qed.

Lemma respects_for_zip {A B} (f : A → B → M unit) (xs : list A) (ys : list B) :
  (∀ a b, respects R (f a b)) → respects R (for_zip f xs ys).
Proof using All.
  intros Hf. revert ys. induction xs as [|x xs IH]; intros [|y ys]; cbn [for_zip];
    try apply respects_ret.
  apply respects_bind; [done|]. intros _. apply IH.
Qed.

Lemma respects_new_Environment (parent : option nat) :
  respects R (new_Environment parent).
Proof using All. intros s o s' [= _ <-]. done. Qed.

Lemma respects_new_Object (o : Object) : respects R (new_Object o).
Proof using All. intros s o' s' [= _ <-]. done. Qed.

Ltac frame_step :=
  lazymatch goal with
  | |- respects _ (ret _) => apply respects_ret
  | |- respects _ (raise _) => apply respects_raise
  | |- respects _ (abort _) => apply respects_abort
  | |- respects _ (gets _) => apply respects_gets
  | |- respects _ (lift _) => apply respects_lift
  | |- respects _ (new_Environment _) => apply respects_new_Environment
  | |- respects _ (new_Object _) => apply respects_new_Object
  | |- respects _ (modify _) => apply respects_modify; intros ?; done
  | |- respects _ (bind _ _) => apply respects_bind; [|intros ?]
  | |- respects _ (try_finally _ _) => apply respects_try_finally
  | |- respects _ (mapM _ _) => apply respects_mapM; intros ?
  | |- respects _ (for_zip _ _ _) => apply respects_for_zip; intros ? ?
  | |- respects _ (match ?x with _ => _ end) => destruct x
  end.

Ltac frame := repeat first [progress eauto | frame_step].

Lemma respects_Environment_define (self : nat) (name : string) (value : Value) :
  respects R (Environment_define self name value).
Proof using All. unfold Environment_define. frame. Qed.

Lemma respects_Environment_get (self : nat) (name : string) (token : Token) :
  respects R (Environment_get self name token).
Proof using All. unfold Environment_get. frame. Qed.

Lemma respects_Environment_assign (self : nat) (name : string) (value : Value)
    (token : Token) :
  respects R (Environment_assign self name value token).
Proof using All. unfold Environment_assign, Environment_define. frame. Qed.

Lemma respects_stringify (value : Value) : respects R (stringify value).
Proof using All. unfold stringify. frame. Qed.

Lemma respects_print (line : string) : respects R (print line).
Proof using All. unfold print. frame. Qed.

Lemma respects_binary_operation (depth : nat) (operator : Token) (l r : Value) :
  respects R (binary_operation depth operator l r).
Proof using All.
  pose proof respects_stringify.
  unfold binary_operation, check_number_operands. frame.
Qed.

Lemma respects_index_checks (token : Token) (what : string) (array index : Value) :
  respects R (index_checks token what array index).
Proof using All. unfold index_checks. frame. Qed.

Lemma respects_builtin_call (name : string) (arguments : list Value) (token : Token) :
  respects R (BuiltinFunction_call name arguments token).
Proof using All. unfold BuiltinFunction_call, builtin_len. frame. Qed.

(** The store of [visit_array_assign] comes after the checks of the index. *)
Lemma respects_checked_store (token : Token) (what : string) (array index v : Value)
    (k : M Value) :
  respects R k →
  respects R (let* (ref, items, n) := index_checks token what array index in
              modify (with_objects (<[ref := OList (<[n := v]> items)]>)) ;; k).
Proof using All.
  intros Hk s o s'. unfold index_checks, bind at 1, bind at 1, gets at 1.
  destruct array; try (intros [= _ <-]; done).
  destruct (objects s !! ref) as [[items|items]|] eqn:E; try (intros [= _ <-]; done).
  destruct index; try (intros [= _ <-]; done).
  all: match goal with
       | |- context [(?i <? 0)%Z || _] =>
           destruct (Z.ltb_spec i 0); cbn [orb];
           [|destruct (Z.leb_spec (Z.of_nat (length items)) i)]
       end.
  all: try (unfold bind, lift, raise; destruct (py_str _ _); intros [= _ <-]; done).
  all: unfold ret at 1; unfold bind at 1, modify at 1; intros Hrun;
       refine (R_trans _ _ _ (R_store ref items _ v s E _) (Hk _ _ _ Hrun)); lia.
Qed.

Section FrameVisitor.

Variables (steps depth : nat).
Variable evaluate : option AST → M Value.
Variable call : Value → list Value → Token → M Value.
Hypothesis respects_evaluate : ∀ node, respects R (evaluate node).
Hypothesis respects_call : ∀ callee arguments token,
  respects R (call callee arguments token).

Lemma respects_block_loop (statements : list AST) (result : Value) :
  respects R (block_loop evaluate statements result).
Proof using All.
  revert result. induction statements as [|stmt rest IH]; intros result; cbn [block_loop].
  - frame.
  - apply respects_bind; [frame|]. intros old. apply respects_bind; [frame|]. intros _.
    apply respects_bind; [done|]. intros r. apply respects_bind; [frame|]. intros _.
    apply IH.
Qed.

Lemma respects_execute_block (block : AST) (env_ : nat) :
  respects R (execute_block evaluate block env_).
Proof using All.
  pose proof respects_block_loop. unfold execute_block, statements_of. frame.
Qed.

Lemma respects_while_loop (condition body : AST) (fuel : nat) (result : Value) :
  respects R (while_loop evaluate condition body fuel result).
Proof using All.
  revert result. induction fuel as [|fuel IH]; intros result; cbn [while_loop]; frame.
Qed.

Lemma respects_repeat_loop (body condition : AST) (fuel : nat) :
  respects R (repeat_loop evaluate body condition fuel).
Proof using All. induction fuel as [|fuel IH]; cbn [repeat_loop]; frame. Qed.

Lemma respects_for_loop (var_name : string) (body : AST) (loop_env : nat)
    (end_ step : Number) (fuel : nat) (current : Number) (result : Value) :
  respects R (for_loop evaluate var_name body loop_env end_ step fuel current result).
Proof using All.
  pose proof respects_execute_block. pose proof respects_Environment_assign.
  revert current result. induction fuel as [|fuel IH]; intros current result;
    cbn [for_loop]; frame.
Qed.

Lemma respects_match_loop (value : Value) (cases : list AST) :
  respects R (match_loop depth evaluate value cases).
Proof using All. induction cases as [|c cases IH]; cbn [match_loop]; frame. Qed.

Lemma respects_dict_pairs (pairs : list (AST * AST)) (items : list (Value * Value)) :
  respects R (dict_pairs evaluate pairs items).
Proof using All.
  revert items. induction pairs as [|[k v] pairs IH]; intros items; cbn [dict_pairs];
    frame.
Qed.

Lemma respects_accept (node : AST) : respects R (accept steps depth evaluate call node).
Proof using All.
  pose proof respects_execute_block. pose proof respects_while_loop.
  pose proof respects_repeat_loop. pose proof respects_for_loop.
  pose proof respects_match_loop. pose proof respects_dict_pairs.
  pose proof respects_Environment_define. pose proof respects_Environment_get.
  pose proof respects_Environment_assign. pose proof respects_stringify.
  pose proof respects_print. pose proof respects_binary_operation.
  pose proof respects_index_checks.
  destruct node; cbn [accept];
    unfold visit_integer, visit_float, visit_string, visit_boolean, visit_var,
      visit_var_assign, visit_var_reassign, visit_bin_op, visit_unary_op,
      check_number_operand, visit_block, visit_if, visit_while, visit_for,
      visit_repeat_until, visit_match, visit_match_case, visit_func_def,
      visit_func_call, visit_return, visit_lambda, new_Function, visit_array,
      visit_dict, visit_conditional_expr, visit_print, visit_array_access;
    try (unfold array_name_of; frame; fail).
  unfold visit_array_assign.
  do 5 (apply respects_bind; [unfold array_name_of; frame|intros ?]).
  apply respects_checked_store. frame.
Qed.

Lemma respects_trampoline (self : Function) (env_ : nat) (token : Token)
    (restore : M unit) (fuel : nat) :
  respects R restore →
  respects R (trampoline evaluate call self env_ token restore fuel).
Proof using All.
  intros Hrestore. pose proof respects_execute_block.
  pose proof respects_Environment_assign.
  induction fuel as [|fuel IH]; cbn [trampoline]; [frame|].
  apply respects_try_except; [frame|].
  intros e h. destruct e; try done. intros [= <-]. frame.
Qed.

Lemma respects_callable_call (callee : Value) (arguments : list Value) (token : Token) :
  respects R (callable_call steps evaluate call callee arguments token).
Proof using All.
  pose proof respects_builtin_call. pose proof respects_Environment_define.
  unfold callable_call, Function_call. frame.
  apply respects_try_except.
  - apply respects_bind; [frame|]. intros _. apply respects_bind; [frame|]. intros _.
    apply respects_trampoline. frame.
  - intros e h. destruct e; try done. intros [= <-]. frame.
Qed.

End FrameVisitor.

Lemma respects_evaluate_and_call (steps depth : nat) :
  (∀ node, respects R (evaluate steps depth node))
  ∧ (∀ callee arguments token, respects R (call steps depth callee arguments token)).
Proof using All.
  induction depth as [|d [IHe IHc]]; split; intros; cbn [evaluate call];
    try apply respects_raise.
  - destruct node; [by apply respects_accept | apply respects_ret].
  - by apply respects_callable_call.
Qed.

Lemma respects_interpret (steps depth : nat) (tree : AST) :
  respects R (interpret steps depth tree).
Proof using All.
  unfold interpret. apply respects_try_except.
  - apply respects_bind; [frame|]. intros g.
    apply (respects_execute_block steps depth _ (call steps depth));
      apply respects_evaluate_and_call.
  - pose proof respects_print. intros e h. destruct e; intros [= <-]; frame.
Qed.

End Frame.

Ltac frame_conditions :=
  first [ apply respects_interpret
        | refine (proj1 (respects_evaluate_and_call _ _ _ _ _ _ _ _ _ _ _ _ _) _)
        | refine (proj2 (respects_evaluate_and_call _ _ _ _ _ _ _ _ _ _ _ _ _) _ _ _) ].

Lemma output_extends_respected (steps depth : nat) :
  (∀ node, respects output_extends (evaluate steps depth node))
  ∧ (∀ callee arguments token,
       respects output_extends (call steps depth callee arguments token))
  ∧ (∀ tree, respects output_extends (interpret steps depth tree)).
Proof.
  split; [|split]; intros; frame_conditions; unfold output_extends; try done.
  all: first [ intros a b c Hab Hbc; by etrans
             | intros line s; cbn [stdout with_stdout]; by apply prefix_app_r ].
Qed.

Lemma heap_extends_trans (a b c : Evaluator) :
  heap_extends a b → heap_extends b c → heap_extends a c.
Proof.
  intros Hab Hbc ref o Ho. specialize (Hab ref o Ho). destruct o as [items|items].
  - destruct Hab as (items1 & H1 & L1). destruct (Hbc ref _ H1) as (items2 & H2 & L2).
    exists items2. split; [done|congruence].
  - exact (Hbc ref _ Hab).
Qed.

Lemma heap_extends_same (s s' : Evaluator) : objects s' = objects s → heap_extends s s'.
Proof. intros E ref o Ho. rewrite E. destruct o; eauto. Qed.

Lemma heap_extends_respected (steps depth : nat) :
  (∀ node, respects heap_extends (evaluate steps depth node))
  ∧ (∀ callee arguments token,
       respects heap_extends (call steps depth callee arguments token))
  ∧ (∀ tree, respects heap_extends (interpret steps depth tree)).
Proof.
  split; [|split]; intros; frame_conditions;
    try (intros; by apply heap_extends_same); try apply heap_extends_trans.
  all: first
    [ intros o s ref o' Ho'; cbn [objects with_objects];
      rewrite lookup_app_l by (by eapply lookup_lt_Some);
      rewrite Ho'; destruct o'; eauto
    | intros ref items n v s Hitems Hn ref' o' Ho'; cbn [objects with_objects];
      destruct (decide (ref' = ref)) as [->|Hne];
      [ rewrite list_lookup_insert_eq by (by eapply lookup_lt_Some);
        rewrite Hitems in Ho'; injection Ho' as <-;
        eexists; split; [done|by rewrite length_insert]
      | rewrite list_lookup_insert_ne by done; rewrite Ho'; destruct o'; eauto ] ].
Qed.

(** X19: output is append-only.  Output is only ever added at the end: whatever
    is evaluated, and however the evaluation ends, the lines printed before
    are still there, in the same order, followed by the new ones.  The same
    holds for a whole [interpret], which adds the message of a runtime
    error. *)
Theorem output_is_never_taken_back (steps depth : nat) (node : option AST) (tree : AST)
    (s : Evaluator) :
  stdout s `prefix_of` stdout (evaluate steps depth node s).2
  ∧ stdout s `prefix_of` stdout (interpret steps depth tree s).2.
Proof.
  destruct (output_extends_respected steps depth) as (He & _ & Hi). split.
  - apply (He node s (evaluate steps depth node s).1). by destruct (evaluate _ _ _ _).
  - apply (Hi tree s (interpret steps depth tree s).1). by destruct (interpret _ _ _ _).
Qed.

(** X20: arrays keep their length.  An array keeps its
    length for life, and a dictionary its entries: whatever is evaluated
    after an array or dictionary exists, and however that ends, the array
    is still there with as many elements (an assignment replaces one element
    and is refused out of bounds), and the dictionary is unchanged. *)
Theorem arrays_keep_their_length (steps depth : nat) (node : option AST) (s : Evaluator)
    (ref : nat) :
  (∀ items, objects s !! ref = Some (OList items) →
     ∃ items', objects (evaluate steps depth node s).2 !! ref = Some (OList items')
               ∧ length items' = length items)
  ∧ (∀ entries, objects s !! ref = Some (ODict entries) →
       objects (evaluate steps depth node s).2 !! ref = Some (ODict entries)).
Proof.
  destruct (heap_extends_respected steps depth) as (He & _ & _).
  assert (heap_extends s (evaluate steps depth node s).2) as H.
  { apply (He node s (evaluate steps depth node s).1). by destruct (evaluate _ _ _ _). }
  split; intros x Hx; exact (H ref _ Hx).
Qed.

Lemma arrays_keep_their_length_witness :
  ∃ items',
    objects (evaluate 1 2 (Some (ast_1.ArrayAssign (inl "a") (ast_1.Integer 0)
                                   (ast_1.Integer 7) (op (OTHER "IDENTIFIER") "a")))
               shared_array).2 !! 0 = Some (OList items')
    ∧ length items' = 3.
Proof.
  apply (proj1 (arrays_keep_their_length 1 2 _ shared_array 0) [VInt 10; VInt 20; VInt 30]).
  reflexivity.
Defined.
